(** * ctkCmdLineModuleDirectoryWatcher: the reconciliation engine

    A shallow embedding of
    [Libs/CommandLineModules/Core/ctkCmdLineModuleDirectoryWatcher.cpp].

    The private class keeps the module manager it was constructed with, a
    [QFileSystemWatcher], the hash [MapFileNameToReference] from file names
    to module references, and the debug flag.  Every method is embedded as a
    function that passes this state explicitly.

    Qt and the module manager lie outside this source file:
    - the file system ([QDir], [QFileInfo]) is a record of observations,
      handed to every method that looks at the disk;
    - [QFileSystemWatcher] is modelled by the two path lists it keeps,
      following Qt's documented behaviour of [addPaths]/[removePaths];
    - the module manager is an interface (a record of operations over an
      abstract manager state);
    - [QtConcurrent::blockingMapped] is modelled by the sequential run in
      list order: results come back in input order whatever the scheduling,
      and the manager serialises its own state. *)

From Stdlib Require Import Ascii String.
From stdpp Require Import base option list strings gmap fin_maps.

Set Default Proof Using "Type".
Set Warnings "-clear-no-such-hyp".

(** ** QString helpers *)

Module QString.

(** [QChar::isSpace] on the characters a string of this model can hold
    (each character stands for the code point of its number, up to U+00FF):
    U+0009 to U+000D, the space U+0020, the next-line control U+0085 and the
    no-break space U+00A0.  The separators beyond U+00FF cannot occur. *)
Definition isSpace (c : ascii) : bool :=
  let n := nat_of_ascii c in
  bool_decide (n = 32 ∨ (9 ≤ n ∧ n ≤ 13) ∨ n = 133 ∨ n = 160)%nat.

Fixpoint dropLeadingSpace (s : string) : string :=
  match s with
  | EmptyString => EmptyString
  | String c s' => if isSpace c then dropLeadingSpace s' else s
  end.

Definition reverse (s : string) : string :=
  string_of_list_ascii (rev (list_ascii_of_string s)).

(** [QString::trimmed]: white space removed from both ends. *)
Definition trimmed (s : string) : string :=
  reverse (dropLeadingSpace (reverse (dropLeadingSpace s))).

(** [QString::isEmpty].  A Rocq string has no separate null value: the
    null [QString] is the empty one, so [isNull] coincides with it. *)
Definition isEmpty (s : string) : bool :=
  match s with EmptyString => true | String _ _ => false end.

Definition isNull (s : string) : bool := isEmpty s.

End QString.

(** [QStringList::contains] *)
Definition contains (l : list string) (s : string) : bool :=
  bool_decide (s ∈ l).

(** ** The file system as Qt shows it *)

Record FileSystem := {
  (** [QDir(path).exists()], also [QFileInfo(path).isDir()] *)
  dir_exists : string → bool;
  (** [QDir(path).absolutePath()] *)
  dir_absolutePath : string → string;
  (** the entries of [QDir(path).entryInfoList()] under the filter
      [QDir::Files | QDir::NoDotAndDotDot | QDir::Executable] *)
  dir_entryInfoList : string → list string;
  (** [QFileInfo(file).absolutePath()]: the directory the file lies in *)
  file_absolutePath : string → string;
  (** [QFileInfo(file).absoluteFilePath()] *)
  file_absoluteFilePath : string → string;
  (** [QFileInfo(path).exists()] *)
  path_exists : string → bool
}.

(** ** QFileSystemWatcher *)

Record QFileSystemWatcher := {
  watched_directories : list string;
  watched_files : list string
}.

Module QFSW.

Definition empty : QFileSystemWatcher :=
  {| watched_directories := []; watched_files := [] |}.

(** [addPath]: an empty path, a path that does not exist and a path that
    is already monitored are not added; a directory goes to the
    directory list and anything else to the file list. *)
Definition addPath (fs : FileSystem) (w : QFileSystemWatcher) (path : string)
  : QFileSystemWatcher :=
  if QString.isEmpty path then w
  else if dir_exists fs path then
    if contains (watched_directories w) path then w
    else {| watched_directories := watched_directories w ++ [path];
            watched_files := watched_files w |}
  else
    if contains (watched_files w) path then w
    else if path_exists fs path then
      {| watched_directories := watched_directories w;
         watched_files := watched_files w ++ [path] |}
    else w.

Definition addPaths (fs : FileSystem) (w : QFileSystemWatcher)
    (paths : list string) : QFileSystemWatcher :=
  foldl (addPath fs) w paths.

Definition removePaths (w : QFileSystemWatcher) (paths : list string)
  : QFileSystemWatcher :=
  {| watched_directories := filter (λ p, p ∉ paths) (watched_directories w);
     watched_files := filter (λ p, p ∉ paths) (watched_files w) |}.

End QFSW.

(** ** The module manager *)

(** A [ctkCmdLineModuleReference] either refers to a module or is the
    default-constructed, invalid reference. *)
Inductive ctkCmdLineModuleReference (Handle : Type) :=
  | NullReference
  | Reference (h : Handle).
Arguments NullReference {Handle}.
Arguments Reference {Handle} h.

(** [operator bool] of a reference *)
Definition isValid {Handle} (r : ctkCmdLineModuleReference Handle) : bool :=
  match r with NullReference => false | Reference _ => true end.

(** What a call of [registerModule] can do: return a reference or throw. *)
Inductive RegisterOutcome (Handle : Type) :=
  | Returned (r : ctkCmdLineModuleReference Handle)
  | ThrowsCtkException
  | ThrowsOther.
Arguments Returned {Handle} r.
Arguments ThrowsCtkException {Handle}.
Arguments ThrowsOther {Handle}.

(** The reference [AddModule] hands back for an outcome of
    [registerModule]. *)
Definition caught {Handle} (outcome : RegisterOutcome Handle)
  : ctkCmdLineModuleReference Handle :=
  match outcome with
  | Returned r => r
  | ThrowsCtkException => NullReference
  | ThrowsOther => NullReference
  end.

(** The three operations of [ctkCmdLineModuleManager] the watcher calls,
    over the manager's own state [M].  The location is the local file name
    ([QUrl::fromLocalFile] is taken as the identity). *)
Record ctkCmdLineModuleManager (Handle M : Type) := {
  registerModule : M → string → M * RegisterOutcome Handle;
  moduleReference : M → string → ctkCmdLineModuleReference Handle;
  unregisterModule : M → ctkCmdLineModuleReference Handle → M
}.
Arguments registerModule {Handle M} _ _ _.
Arguments moduleReference {Handle M} _ _ _.
Arguments unregisterModule {Handle M} _ _ _.

(** The calls that reach the manager and change it, in the order made. *)
Inductive ManagerCall (Handle : Type) :=
  | CallRegister (location : string)
  | CallUnregister (location : string) (r : ctkCmdLineModuleReference Handle).
Arguments CallRegister {Handle} location.
Arguments CallUnregister {Handle} location r.

(** [QtConcurrent::blockingMapped] for a function object that works on a
    shared state: one result per element, in the order of the input. *)
Fixpoint blockingMapped {S A B : Type} (f : S → A → S * B) (s : S) (l : list A)
  : S * list B :=
  match l with
  | [] => (s, [])
  | x :: l' =>
      let '(s1, y) := f s x in
      let '(s2, ys) := blockingMapped f s1 l' in
      (s2, y :: ys)
  end.

(** ** ctkCmdLineModuleDirectoryWatcherPrivate *)

Record ctkCmdLineModuleDirectoryWatcherPrivate (Handle M : Type) := {
  ModuleManager : M;
  FileSystemWatcher : QFileSystemWatcher;
  MapFileNameToReference : gmap string (ctkCmdLineModuleReference Handle);
  Debug : bool;
  (** a trace of the calls of [registerModule] and [unregisterModule] made
      so far (not in the source: it is what lets a statement speak about
      the calls themselves); the calls of one batch appear in the order of
      its list, which is one of the orders the thread pool may take *)
  ManagerCalls : list (ManagerCall Handle)
}.
Arguments ModuleManager {Handle M} _.
Arguments FileSystemWatcher {Handle M} _.
Arguments MapFileNameToReference {Handle M} _.
Arguments Debug {Handle M} _.
Arguments ManagerCalls {Handle M} _.

Section Watcher.

Context {Handle M : Type}.
Variable manager : ctkCmdLineModuleManager Handle M.

Abbreviation Ref := (ctkCmdLineModuleReference Handle).
Abbreviation Watcher := (ctkCmdLineModuleDirectoryWatcherPrivate Handle M).

(** The function object [AddModule]: both [catch] branches give the
    default-constructed reference. *)
Definition AddModule (s : M * list (ManagerCall Handle)) (moduleLocation : string)
  : (M * list (ManagerCall Handle)) * Ref :=
  let '(m, calls) := s in
  let '(m', outcome) := registerModule manager m moduleLocation in
  ((m', calls ++ [CallRegister moduleLocation]),
   match outcome with
   | Returned r => r
   | ThrowsCtkException => NullReference
   | ThrowsOther => NullReference
   end).

(** The function object [RemoveModule]. *)
Definition RemoveModule (s : M * list (ManagerCall Handle)) (moduleLocation : string)
  : (M * list (ManagerCall Handle)) * bool :=
  let '(m, calls) := s in
  let ref := moduleReference manager m moduleLocation in
  if isValid ref then
    ((unregisterModule manager m ref,
      calls ++ [CallUnregister moduleLocation ref]), true)
  else (s, false).

Definition setDebug (d : Watcher) (debug : bool) : Watcher :=
  {| ModuleManager := ModuleManager d;
     FileSystemWatcher := FileSystemWatcher d;
     MapFileNameToReference := MapFileNameToReference d;
     Debug := debug;
     ManagerCalls := ManagerCalls d |}.

Definition directories (d : Watcher) : list string :=
  watched_directories (FileSystemWatcher d).

Definition files (d : Watcher) : list string :=
  watched_files (FileSystemWatcher d).

(** [MapFileNameToReference.keys()] *)
Definition keys (d : Watcher) : list string :=
  (map_to_list (MapFileNameToReference d)).*1.

Definition updateWatchedPaths (fs : FileSystem) (d : Watcher)
    (directories_ files_ : list string) : Watcher :=
  let currentDirectories := directories d in
  let currentFiles := files d in
  let w0 := FileSystemWatcher d in
  let w1 := if bool_decide (0 < length currentDirectories)
            then QFSW.removePaths w0 currentDirectories else w0 in
  let w2 := if bool_decide (0 < length currentFiles)
            then QFSW.removePaths w1 currentFiles else w1 in
  let w3 := if bool_decide (0 < length directories_)
            then QFSW.addPaths fs w2 directories_ else w2 in
  let w4 := if bool_decide (0 < length files_)
            then QFSW.addPaths fs w3 files_ else w3 in
  {| ModuleManager := ModuleManager d;
     FileSystemWatcher := w4;
     MapFileNameToReference := MapFileNameToReference d;
     Debug := Debug d;
     ManagerCalls := ManagerCalls d |}.

Definition filterInvalidDirectories (fs : FileSystem) (directories_ : list string)
  : list string :=
  flat_map
    (λ path,
       if negb (QString.isNull path) && negb (QString.isEmpty path)
          && negb (QString.isEmpty (QString.trimmed path))
       then if dir_exists fs path then [dir_absolutePath fs path] else []
       else [])
    directories_.

Definition extractCurrentlyWatchedFilenamesInDirectory (fs : FileSystem)
    (d : Watcher) (path : string) : list string :=
  if dir_exists fs path then
    flat_map
      (λ fileName,
         if bool_decide (file_absolutePath fs fileName = dir_absolutePath fs path)
         then [file_absoluteFilePath fs fileName] else [])
      (keys d)
  else [].

Definition getExecutablesInDirectory (fs : FileSystem) (path : string)
  : list string :=
  if dir_exists fs path then
    flat_map (λ executableFileInfo, [file_absoluteFilePath fs executableFileInfo])
             (dir_entryInfoList fs path)
  else [].

(** The body of the loop of [loadModules]: [refs[i]] is stored under
    [executables[i]] when it is valid. *)
Definition storeReference (map : gmap string Ref) (er : string * Ref)
  : gmap string Ref :=
  if isValid er.2 then <[er.1 := er.2]> map else map.

(** [blockingMapped] gives one reference per executable, so the loop over
    the indices of [executables] is the loop over the two lists zipped. *)
Definition loadModules (d : Watcher) (executables : list string)
  : Watcher * list Ref :=
  let '((m, calls), refs) :=
    blockingMapped AddModule (ModuleManager d, ManagerCalls d) executables in
  ({| ModuleManager := m;
      FileSystemWatcher := FileSystemWatcher d;
      MapFileNameToReference :=
        foldl storeReference (MapFileNameToReference d) (zip executables refs);
      Debug := Debug d;
      ManagerCalls := calls |},
   refs).

Definition unloadModules (d : Watcher) (executables : list string) : Watcher :=
  let '((m, calls), _) :=
    blockingMapped RemoveModule (ModuleManager d, ManagerCalls d) executables in
  {| ModuleManager := m;
     FileSystemWatcher := FileSystemWatcher d;
     MapFileNameToReference :=
       foldl (λ map executable, delete executable map)
             (MapFileNameToReference d) executables;
     Debug := Debug d;
     ManagerCalls := calls |}.

(** The list [modulesToUnload] that [setModuleReferences] builds in its
    two loops. *)
Definition modulesToUnload (fs : FileSystem) (d : Watcher)
    (directories_ : list string) : list string :=
  let currentlyWatchedDirectories := directories d in
  flat_map
    (λ path,
       if negb (contains directories_ path)
       then extractCurrentlyWatchedFilenamesInDirectory fs d path
       else [])
    currentlyWatchedDirectories
  ++
  flat_map
    (λ path,
       if contains currentlyWatchedDirectories path then
         let currentlyWatchedFiles :=
           extractCurrentlyWatchedFilenamesInDirectory fs d path in
         let executablesInDirectory := getExecutablesInDirectory fs path in
         filter (λ executable, contains executablesInDirectory executable = false)
                currentlyWatchedFiles
       else [])
    directories_.

(** The list [modulesToLoad] that [setModuleReferences] builds in its
    second loop. *)
Definition modulesToLoad (fs : FileSystem) (d : Watcher)
    (directories_ : list string) : list string :=
  let currentlyWatchedDirectories := directories d in
  flat_map
    (λ path,
       if contains currentlyWatchedDirectories path then
         let currentlyWatchedFiles :=
           extractCurrentlyWatchedFilenamesInDirectory fs d path in
         let executablesInDirectory := getExecutablesInDirectory fs path in
         filter (λ executable, contains currentlyWatchedFiles executable = false)
                executablesInDirectory
       else getExecutablesInDirectory fs path)
    directories_.

Definition setModuleReferences (fs : FileSystem) (d : Watcher)
    (directories_ : list string) : Watcher :=
  let toUnload := modulesToUnload fs d directories_ in
  let toLoad := modulesToLoad fs d directories_ in
  (loadModules (unloadModules d toUnload) toLoad).1.

Definition setDirectories (fs : FileSystem) (d : Watcher)
    (directories_ : list string) : Watcher :=
  let validDirectories := filterInvalidDirectories fs directories_ in
  let d1 := setModuleReferences fs d validDirectories in
  updateWatchedPaths fs d1 validDirectories (keys d1).

Definition updateModuleReferences (fs : FileSystem) (d : Watcher)
    (directory : string) : Watcher :=
  let currentlyWatchedDirectories := directories d in
  let currentlyWatchedDirectories :=
    if negb (contains currentlyWatchedDirectories directory)
    then currentlyWatchedDirectories ++ [directory]
    else currentlyWatchedDirectories in
  setModuleReferences fs d currentlyWatchedDirectories.

(** [QList::front] is defined on a non-empty list only; [None] stands for
    the failed assertion on an empty one. *)
Definition front {A} (l : list A) : option A := head l.

Definition onFileChanged (d : Watcher) (path : string) : option Watcher :=
  let '(d', refs) := loadModules d [path] in
  match front refs with
  | Some ref => Some d'
  | None => None
  end.

Definition onDirectoryChanged (fs : FileSystem) (d : Watcher) (path : string)
  : Watcher :=
  let validDirectories := filterInvalidDirectories fs [path] in
  if bool_decide (0 < length validDirectories)
  then updateModuleReferences fs d path
  else d.

(** The state the constructor builds. *)
Definition construct (moduleManager : M) : Watcher :=
  {| ModuleManager := moduleManager;
     FileSystemWatcher := QFSW.empty;
     MapFileNameToReference := ∅;
     Debug := false;
     ManagerCalls := [] |}.

End Watcher.

(** ** Concrete collaborators

    A file system and a module manager small enough to run the watcher on;
    the general statements below never depend on them. *)

Module Table.

(** The part of a path before its last slash; [QFileInfo::absolutePath] of
    an absolute, clean file name. *)
Fixpoint beforeLastSlash (s : string) : option string :=
  match s with
  | EmptyString => None
  | String c s' =>
      match beforeLastSlash s' with
      | Some dir => Some (String c dir)
      | None => if Ascii.eqb c "/"%char then Some EmptyString else None
      end
  end.

Definition parentDirectory (file : string) : string :=
  match beforeLastSlash file with
  | Some EmptyString => "/"
  | Some dir => dir
  | None => "."
  end.

(** A disk given by its directories, each with the executable files
    directly inside it.  Every path is absolute and clean, so making a
    path absolute changes nothing. *)
Definition fileSystem (disk : list (string * list string)) : FileSystem :=
  {| dir_exists path := bool_decide (path ∈ disk.*1);
     dir_absolutePath path := path;
     dir_entryInfoList path :=
       flat_map (λ entry, if bool_decide (entry.1 = path) then entry.2 else []) disk;
     file_absolutePath file := parentDirectory file;
     file_absoluteFilePath file := file;
     path_exists path :=
       bool_decide (path ∈ disk.*1) || bool_decide (path ∈ concat disk.*2) |}.

(** Modelled from the spec: the module manager, whose source
    ([ctkCmdLineModuleManager.cpp]) is not at hand.  [tryRegister] either gives a handle or fails,
    [lookup] finds the handle registered for a location, [unregister]
    forgets a handle.  Here the manager keeps the registered locations
    with a number as handle, and [accepts] says which locations register. *)
Definition moduleManager (accepts : string → option nat)
  : ctkCmdLineModuleManager nat (gmap string nat) :=
  {| registerModule m location :=
       match accepts location with
       | Some h => (<[location := h]> m, Returned (Reference h))
       | None => (m, ThrowsCtkException)
       end;
     moduleReference m location :=
       match m !! location with
       | Some h => Reference h
       | None => NullReference
       end;
     unregisterModule m ref :=
       match ref with
       | Reference h => filter (λ entry, entry.2 ≠ h) m
       | NullReference => m
       end |}.

(** Handles by file name, for a manager that accepts these files only. *)
Definition accepting (table : list (string * nat)) (location : string) : option nat :=
  (list_to_map table : gmap string nat) !! location.

(** Modelled from the spec: a module manager as above, except that
    [tryRegister] fails for a location that is registered already. *)
Definition strictModuleManager (accepts : string → option nat)
  : ctkCmdLineModuleManager nat (gmap string nat) :=
  {| registerModule m location :=
       match m !! location with
       | Some _ => (m, ThrowsCtkException)
       | None => registerModule (moduleManager accepts) m location
       end;
     moduleReference := moduleReference (moduleManager accepts);
     unregisterModule := unregisterModule (moduleManager accepts) |}.

End Table.

(** ** Scenarios

    The disks, managers and watcher states the closed statements at the end
    of the file are about. *)

Module Scenario.

Import Table.

(** A manager for which the three files register, and one for which
    nothing does (every file was replaced by something that is no module). *)
Definition registers : ctkCmdLineModuleManager nat (gmap string nat) :=
  moduleManager (accepting [("/A/x", 1); ("/A/y", 2); ("/B/z", 3)]).

Definition rejects : ctkCmdLineModuleManager nat (gmap string nat) :=
  moduleManager (λ _, None).

(** A manager for which [/B/z] does not register. *)
Definition rejects_z : ctkCmdLineModuleManager nat (gmap string nat) :=
  moduleManager (accepting [("/A/x", 1); ("/A/y", 2)]).

(** A manager for which [/A/y] does not register. *)
Definition rejects_y : ctkCmdLineModuleManager nat (gmap string nat) :=
  moduleManager (accepting [("/A/x", 1); ("/A/z", 3)]).

Definition fresh : ctkCmdLineModuleDirectoryWatcherPrivate nat (gmap string nat) :=
  construct ∅.

(** One directory with one executable. *)
Definition disk_A_x : FileSystem := fileSystem [("/A", ["/A/x"])].

(** [/A] holds [x] and [y]; [/B] is empty. *)
Definition disk_A_xy : FileSystem :=
  fileSystem [("/A", ["/A/x"; "/A/y"]); ("/B", [])].

(** [/A] holds [x] and [y], [/B] holds [z]. *)
Definition disk_A_xy_B_z : FileSystem :=
  fileSystem [("/A", ["/A/x"; "/A/y"]); ("/B", ["/B/z"])].

(** [y] is gone from [/A]; [/B] holds [z]. *)
Definition disk_A_x_B_z : FileSystem :=
  fileSystem [("/A", ["/A/x"]); ("/B", ["/B/z"])].

(** The watcher after [setDirectories(["/A"])] on the disk with [/A/x]. *)
Definition watching_A : ctkCmdLineModuleDirectoryWatcherPrivate nat (gmap string nat) :=
  setDirectories registers disk_A_x fresh ["/A"].

(** The watcher after [setDirectories(["/A", "/B"])] while [/B] was empty. *)
Definition watching_A_B_empty
  : ctkCmdLineModuleDirectoryWatcherPrivate nat (gmap string nat) :=
  setDirectories registers disk_A_xy fresh ["/A"; "/B"].

(** The watcher after [setDirectories(["/A", "/B"])] on the full disk,
    where [/B/z] did not register: it is on disk and not tracked. *)
Definition watching_A_B_without_z
  : ctkCmdLineModuleDirectoryWatcherPrivate nat (gmap string nat) :=
  setDirectories rejects_z disk_A_xy_B_z fresh ["/A"; "/B"].

(** The watcher after [setDirectories(["/A", "/B"])] on the full disk. *)
Definition watching_A_B
  : ctkCmdLineModuleDirectoryWatcherPrivate nat (gmap string nat) :=
  setDirectories registers disk_A_xy_B_z fresh ["/A"; "/B"].

(** The watcher after [setDirectories(["/A", "/B"])] while [/A] held [x]
    only and [/B] held [z]. *)
Definition watching_A_x_B_z
  : ctkCmdLineModuleDirectoryWatcherPrivate nat (gmap string nat) :=
  setDirectories registers disk_A_x_B_z fresh ["/A"; "/B"].

(** A manager that another client has used to register [/A/x], and a
    watcher that was constructed on it afterwards. *)
Definition shared_manager_watcher
  : ctkCmdLineModuleDirectoryWatcherPrivate nat (gmap string nat) :=
  construct {[ "/A/x" := 1 ]}.

(** A manager that registers a location once only. *)
Definition registers_once : ctkCmdLineModuleManager nat (gmap string nat) :=
  strictModuleManager (accepting [("/A/x", 1); ("/A/y", 2); ("/B/z", 3)]).

(** [/A] was deleted with what it held; [/B] holds [z]. *)
Definition disk_B_z : FileSystem := fileSystem [("/B", ["/B/z"])].

(** Every directory is gone from the disk. *)
Definition disk_empty : FileSystem := fileSystem [].

End Scenario.

(** ** Predicates of the watcher's properties *)

(** The path has a character that is no white space for [QChar::isSpace]. *)
Definition hasNonSpace (s : string) : bool :=
  existsb (λ c, negb (QString.isSpace c)) (list_ascii_of_string s).

(** Every reference in [MapFileNameToReference] is a valid one. *)
Definition storesValidReferences {Handle M}
    (d : ctkCmdLineModuleDirectoryWatcherPrivate Handle M) : Prop :=
  ∀ fileName ref,
    MapFileNameToReference d !! fileName = Some ref → isValid ref = true.

(** On the disk [fs], the watched directories exist and are absolute
    paths, and the tracked files are absolute file names, no directories,
    each lying in a watched directory. *)
Definition tracksInsideWatched {Handle M} (fs : FileSystem)
    (d : ctkCmdLineModuleDirectoryWatcherPrivate Handle M) : Prop :=
  (∀ p, p ∈ directories d →
     dir_exists fs p = true ∧ dir_absolutePath fs p = p)
  ∧ (∀ k, is_Some (MapFileNameToReference d !! k) →
       file_absoluteFilePath fs k = k ∧ dir_exists fs k = false
       ∧ ∃ p, p ∈ directories d
              ∧ file_absolutePath fs k = dir_absolutePath fs p).

(** On the disk [fs], the executables listed for each of the directories
    are absolute file names, no directories, lying in the directory they
    were listed for. *)
Definition scansConsistently (fs : FileSystem) (dirs : list string) : Prop :=
  ∀ p x, p ∈ dirs → x ∈ getExecutablesInDirectory fs p →
    file_absolutePath fs x = dir_absolutePath fs p
    ∧ file_absoluteFilePath fs x = x ∧ dir_exists fs x = false.

(** On the disk [fs], each of the directories is a non-empty absolute path
    of a directory that exists. *)
Definition absoluteDirectories (fs : FileSystem) (dirs : list string) : Prop :=
  ∀ p, p ∈ dirs →
    QString.isEmpty p = false ∧ dir_exists fs p = true
    ∧ dir_absolutePath fs p = p.

Section WatcherFacts.

Context {Handle M : Type}.
Variable manager : ctkCmdLineModuleManager Handle M.

Abbreviation Ref := (ctkCmdLineModuleReference Handle).
Abbreviation Watcher := (ctkCmdLineModuleDirectoryWatcherPrivate Handle M).

(** ** First facts about the two batch operations *)

Lemma blockingMapped_length {S A B : Type} (f : S → A → S * B) s l :
  length (blockingMapped f s l).2 = length l.
Proof.
  revert s; induction l as [|x l IH]; intros s; simpl; [done|].
  destruct (f s x) as [s1 y].
  specialize (IH s1). destruct (blockingMapped f s1 l) as [s2 ys].
  simpl in *. by rewrite IH.
Qed.

Lemma blockingMapped_app {S A B : Type} (f : S → A → S * B) s l1 l2 :
  blockingMapped f s (l1 ++ l2) =
  let r1 := blockingMapped f s l1 in
  let r2 := blockingMapped f r1.1 l2 in
  (r2.1, r1.2 ++ r2.2).
Proof.
  revert s; induction l1 as [|x l1 IH]; intros s; simpl.
  - by destruct (blockingMapped f s l2).
  - destruct (f s x) as [s1 y]. rewrite IH.
    destruct (blockingMapped f s1 l1) as [s2 ys]; simpl.
    by destruct (blockingMapped f s2 l2).
Qed.

Lemma loadModules_refs (d : Watcher) executables :
  (loadModules manager d executables).2 =
  (blockingMapped (AddModule manager) (ModuleManager d, ManagerCalls d) executables).2.
Proof.
  unfold loadModules.
  by destruct (blockingMapped (AddModule manager) _ executables) as [[m calls] refs].
Qed.

Lemma loadModules_map (d : Watcher) executables :
  MapFileNameToReference (loadModules manager d executables).1 =
  foldl storeReference (MapFileNameToReference d)
        (zip executables (loadModules manager d executables).2).
Proof.
  unfold loadModules.
  by destruct (blockingMapped (AddModule manager) _ executables) as [[m calls] refs].
Qed.

Lemma loadModules_FileSystemWatcher (d : Watcher) executables :
  FileSystemWatcher (loadModules manager d executables).1 = FileSystemWatcher d.
Proof.
  unfold loadModules.
  by destruct (blockingMapped (AddModule manager) _ executables) as [[m calls] refs].
Qed.

Lemma loadModules_length (d : Watcher) executables :
  length (loadModules manager d executables).2 = length executables.
Proof. rewrite loadModules_refs. apply blockingMapped_length. Qed.

Lemma loadModules_nil (d : Watcher) :
  loadModules manager d [] =
  ({| ModuleManager := ModuleManager d;
      FileSystemWatcher := FileSystemWatcher d;
      MapFileNameToReference := MapFileNameToReference d;
      Debug := Debug d;
      ManagerCalls := ManagerCalls d |}, []).
Proof. reflexivity. Qed.

Lemma unloadModules_map (d : Watcher) executables :
  MapFileNameToReference (unloadModules manager d executables) =
  foldl (λ map executable, delete executable map)
        (MapFileNameToReference d) executables.
Proof.
  unfold unloadModules.
  by destruct (blockingMapped (RemoveModule manager) _ executables) as [[m calls] bs].
Qed.

Lemma unloadModules_FileSystemWatcher (d : Watcher) executables :
  FileSystemWatcher (unloadModules manager d executables) = FileSystemWatcher d.
Proof.
  unfold unloadModules.
  by destruct (blockingMapped (RemoveModule manager) _ executables) as [[m calls] bs].
Qed.

(** *** What the storing loop leaves in the hash *)

Lemma storeReference_lookup (map : gmap string Ref) er p :
  storeReference map er !! p =
  if decide (er.1 = p ∧ isValid er.2 = true) then Some er.2 else map !! p.
Proof.
  unfold storeReference. destruct er as [q r]; simpl.
  destruct (isValid r) eqn:Hr.
  - rewrite lookup_insert.
    destruct (decide (q = p)) as [->|Hne].
    + by rewrite decide_True.
    + rewrite decide_False; [done|]. by intros [? _].
  - case_decide as Hd; [|done]. destruct Hd; congruence.
Qed.

Lemma foldl_storeReference_is_Some (map : gmap string Ref) ers p :
  is_Some (map !! p) → is_Some (foldl storeReference map ers !! p).
Proof.
  revert map; induction ers as [|er ers IH]; intros map Hp; simpl; [done|].
  apply IH. rewrite storeReference_lookup. by case_decide.
Qed.

Lemma foldl_storeReference_invalid (map : gmap string Ref) ers p :
  (∀ r, (p, r) ∈ ers → isValid r = false) →
  foldl storeReference map ers !! p = map !! p.
Proof.
  revert map; induction ers as [|[q r] ers IH]; intros map Hp; simpl; [done|].
  rewrite IH.
  - rewrite storeReference_lookup; simpl. case_decide as Hd; [|done].
    destruct Hd as [-> Hv]. assert (isValid r = false) by (apply Hp; by left).
    congruence.
  - intros r' Hr'. apply Hp. by right.
Qed.

Lemma foldl_storeReference_Some (map : gmap string Ref) ers p r :
  foldl storeReference map ers !! p = Some r →
  map !! p = Some r ∨ ((p, r) ∈ ers ∧ isValid r = true).
Proof.
  revert map; induction ers as [|[q r'] ers IH]; intros map; simpl; [by left|].
  intros [H|[H ?]]%IH.
  - rewrite storeReference_lookup in H; simpl in H.
    case_decide as Hd; [|by left].
    destruct Hd as [-> Hv]. simplify_eq. right. split; [by left|done].
  - right. split; [by right|done].
Qed.

Lemma foldl_storeReference_fun (g : string → Ref) (map : gmap string Ref) ers p :
  (∀ q r, (q, r) ∈ ers → r = g q) →
  foldl storeReference map ers !! p =
  if decide (p ∈ ers.*1 ∧ isValid (g p) = true) then Some (g p) else map !! p.
Proof.
  revert map; induction ers as [|[q r] ers IH]; intros map Hg.
  - destruct (decide _) as [[Hd _]|]; [by apply elem_of_nil in Hd|done].
  - cbn [foldl]. rewrite IH; [|intros q' r' ?; apply Hg; by right].
    rewrite storeReference_lookup, fmap_cons. cbn [fst snd].
    assert (r = g q) as -> by (apply Hg; by left).
    destruct (decide (q = p ∧ isValid (g q) = true)) as [[-> Hv]|Hn].
    + rewrite (decide_True (P := p ∈ p :: _ ∧ _)); [|split; [by left|done]].
      by case_decide.
    + case_decide as H1; case_decide as H2; try done.
      * destruct H1 as [H1 Hv]. destruct H2. split; [by right|done].
      * destruct H2 as [[->|H2]%elem_of_cons Hv]; [|by destruct H1].
        by destruct Hn.
Qed.

Lemma elem_of_flat_map {A B} (f : A → list B) (l : list A) (y : B) :
  y ∈ flat_map f l ↔ ∃ x, x ∈ l ∧ y ∈ f x.
Proof.
  rewrite list_elem_of_In, in_flat_map.
  split; intros (x & Hx & Hy); exists x; by rewrite ?list_elem_of_In in *.
Qed.

Lemma elem_of_zip_lookup {A B} (l : list A) (k : list B) x y :
  (x, y) ∈ zip l k ↔ ∃ i, l !! i = Some x ∧ k !! i = Some y.
Proof.
  rewrite elem_of_lookup_zip_with. split.
  - intros (i & x' & y' & ? & ? & ?). simplify_eq. eauto.
  - intros (i & ? & ?). exists i, x, y. eauto.
Qed.

Lemma AddModule_eq m calls location :
  AddModule manager (m, calls) location =
  (((registerModule manager m location).1, calls ++ [CallRegister location]),
   caught (registerModule manager m location).2).
Proof.
  unfold AddModule, caught.
  by destruct (registerModule manager m location) as [m' []].
Qed.

(** Every executable of a batch reaches [registerModule], whatever
    happened to the ones before it. *)
Lemma blockingMapped_AddModule_calls m calls executables :
  (blockingMapped (AddModule manager) (m, calls) executables).1.2 =
  calls ++ (CallRegister <$> executables).
Proof.
  revert m calls; induction executables as [|x l IH]; intros m calls.
  - simpl. by rewrite app_nil_r.
  - cbn [blockingMapped]. rewrite AddModule_eq.
    specialize (IH (registerModule manager m x).1 (calls ++ [CallRegister x])).
    destruct (blockingMapped _ _ l) as [[m2 c2] ys]. simpl in *.
    by rewrite IH, <- app_assoc.
Qed.

Lemma loadModules_calls (d : Watcher) executables :
  ManagerCalls (loadModules manager d executables).1 =
  ManagerCalls d ++ (CallRegister <$> executables).
Proof.
  pose proof (blockingMapped_AddModule_calls
                (ModuleManager d) (ManagerCalls d) executables) as H.
  unfold loadModules.
  by destruct (blockingMapped _ _ executables) as [[m calls] refs].
Qed.

Lemma loadModules_singleton (d : Watcher) path :
  loadModules manager d [path] =
  let r := registerModule manager (ModuleManager d) path in
  ({| ModuleManager := r.1;
      FileSystemWatcher := FileSystemWatcher d;
      MapFileNameToReference :=
        storeReference (MapFileNameToReference d) (path, caught r.2);
      Debug := Debug d;
      ManagerCalls := ManagerCalls d ++ [CallRegister path] |},
   [caught r.2]).
Proof.
  unfold loadModules. cbn [blockingMapped]. by rewrite AddModule_eq.
Qed.

(** ** Loading *)

(** C10: [loadModules] returns one reference per executable it was given,
    so a non-empty batch gives a non-empty list, and [onFileChanged], which
    takes the front of the list returned for a one-element batch, always
    finds an element there. *)
Theorem loadModules_one_result_per_path :
  (∀ (d : Watcher) executables,
     length (loadModules manager d executables).2 = length executables)
  ∧ (∀ (d : Watcher) executables,
       executables ≠ [] → (loadModules manager d executables).2 ≠ [])
  ∧ (∀ (d : Watcher) path,
       ∃ ref, front (loadModules manager d [path]).2 = Some ref
              ∧ onFileChanged manager d path
                = Some (loadModules manager d [path]).1).
Proof.
  split; [|split].
  - apply loadModules_length.
  - intros d executables Hne Hnil.
    pose proof (loadModules_length d executables) as Hlen.
    rewrite Hnil in Hlen. by destruct executables.
  - intros d path.
    pose proof (loadModules_length d [path]) as Hlen.
    unfold onFileChanged.
    destruct (loadModules manager d [path]) as [d' [|ref refs]]; [done|].
    by exists ref.
Qed.

(** C9: a load batch never removes a key of [MapFileNameToReference]; an
    entry found afterwards was there before or is a valid reference the
    batch returned for that file; and a file for which the batch returned
    no valid reference keeps the entry it had. *)
Theorem loadModules_keeps_entries (d : Watcher) executables fileName :
  let d' := (loadModules manager d executables).1 in
  let refs := (loadModules manager d executables).2 in
  (is_Some (MapFileNameToReference d !! fileName)
   → is_Some (MapFileNameToReference d' !! fileName))
  ∧ (∀ ref, MapFileNameToReference d' !! fileName = Some ref →
       MapFileNameToReference d !! fileName = Some ref
       ∨ (isValid ref = true
          ∧ ∃ i, executables !! i = Some fileName ∧ refs !! i = Some ref))
  ∧ ((∀ i ref, executables !! i = Some fileName → refs !! i = Some ref
               → isValid ref = false)
     → MapFileNameToReference d' !! fileName
       = MapFileNameToReference d !! fileName).
Proof.
  intros d' refs. subst d' refs. rewrite loadModules_map.
  split; [|split].
  - apply foldl_storeReference_is_Some.
  - intros ref [H|[H Hv]]%foldl_storeReference_Some; [by left|right].
    split; [done|]. by apply elem_of_zip_lookup.
  - intros Hfail. apply foldl_storeReference_invalid.
    intros r (i & ? & ?)%elem_of_zip_lookup. eauto.
Qed.

(** C1, as the code has it: a file-changed notification makes one call of
    [registerModule], for that path; a valid reference is stored under the
    path whether or not it had an entry, and otherwise (the call threw or
    returned no module) [MapFileNameToReference] stays as it was, so an
    entry the path had is kept. *)
Theorem onFileChanged_reloads_single_file (d : Watcher) path :
  let outcome := (registerModule manager (ModuleManager d) path).2 in
  ∃ d', onFileChanged manager d path = Some d'
        ∧ ManagerCalls d' = ManagerCalls d ++ [CallRegister path]
        ∧ FileSystemWatcher d' = FileSystemWatcher d
        ∧ MapFileNameToReference d' =
            if isValid (caught outcome)
            then <[path := caught outcome]> (MapFileNameToReference d)
            else MapFileNameToReference d.
Proof.
  intros outcome. unfold onFileChanged. rewrite loadModules_singleton.
  cbn [front head]. eexists; split; [reflexivity|]. by cbn.
Qed.

Lemma loadModules_app (d : Watcher) l1 l2 :
  loadModules manager d (l1 ++ l2) =
  let r1 := loadModules manager d l1 in
  let r2 := loadModules manager r1.1 l2 in
  (r2.1, r1.2 ++ r2.2).
Proof.
  unfold loadModules. rewrite blockingMapped_app. cbn zeta.
  pose proof (blockingMapped_length (AddModule manager)
                (ModuleManager d, ManagerCalls d) l1) as Hlen.
  destruct (blockingMapped (AddModule manager) _ l1) as [[m1 c1] r1].
  cbn [fst snd ModuleManager ManagerCalls MapFileNameToReference
       FileSystemWatcher Debug] in *.
  destruct (blockingMapped (AddModule manager) _ l2) as [[m2 c2] r2].
  cbn [fst snd]. by rewrite zip_with_app, foldl_app.
Qed.

Lemma loadModules_deterministic_outcome
    (outcome : string → RegisterOutcome Handle) (d : Watcher) executables :
  (∀ m location, (registerModule manager m location).2 = outcome location) →
  (loadModules manager d executables).2 = (λ e, caught (outcome e)) <$> executables
  ∧ ∀ fileName,
      MapFileNameToReference (loadModules manager d executables).1 !! fileName =
      if decide (fileName ∈ executables ∧ isValid (caught (outcome fileName)) = true)
      then Some (caught (outcome fileName))
      else MapFileNameToReference d !! fileName.
Proof.
  intros Hout.
  assert (∀ s, (blockingMapped (AddModule manager) s executables).2
               = (λ e, caught (outcome e)) <$> executables) as Hrefs.
  { induction executables as [|x l IH]; intros [m calls]; [done|].
    cbn [blockingMapped]. rewrite AddModule_eq, Hout.
    specialize (IH ((registerModule manager m x).1, calls ++ [CallRegister x])).
    destruct (blockingMapped _ _ l) as [s2 ys]. simpl in *. by rewrite IH. }
  split.
  - by rewrite loadModules_refs.
  - intros fileName. rewrite loadModules_map, loadModules_refs, Hrefs.
    rewrite (foldl_storeReference_fun (λ e, caught (outcome e))).
    + rewrite fst_zip; [done|]. by rewrite length_fmap.
    + intros q r (i & Hq & Hr)%elem_of_zip_lookup.
      rewrite list_lookup_fmap, Hq in Hr. by simplify_eq/=.
Qed.

(** C6: a load batch is the run of its registration attempts one after the
    other, each made whatever the earlier ones gave: the attempt for a path
    calls [registerModule] once, a throw becomes the invalid reference for
    that path, and the hash gets the reference only if it is valid; the
    batch calls the manager for every path, and an entry found afterwards is
    an old one or a valid reference the batch returned for that file.  When
    the outcome of [registerModule] for a location does not depend on what
    the manager did before, the returned list is the reference of each
    path in the order of the input, and the entry of a file is the
    reference just obtained when that is valid and the previous entry
    otherwise. *)
Theorem loadModules_isolates_failures :
  (∀ (d : Watcher) before after,
     loadModules manager d (before ++ after) =
     let r1 := loadModules manager d before in
     let r2 := loadModules manager r1.1 after in
     (r2.1, r1.2 ++ r2.2))
  ∧ (∀ (d : Watcher) path,
       let r := registerModule manager (ModuleManager d) path in
       (loadModules manager d [path]).2 = [caught r.2]
       ∧ MapFileNameToReference (loadModules manager d [path]).1 =
           (if isValid (caught r.2)
            then <[path := caught r.2]> (MapFileNameToReference d)
            else MapFileNameToReference d))
  ∧ (∀ (d : Watcher) executables,
       ManagerCalls (loadModules manager d executables).1 =
       ManagerCalls d ++ (CallRegister <$> executables))
  ∧ (∀ (d : Watcher) executables fileName ref,
       MapFileNameToReference (loadModules manager d executables).1 !! fileName
         = Some ref →
       MapFileNameToReference d !! fileName = Some ref
       ∨ (isValid ref = true
          ∧ ∃ i, executables !! i = Some fileName
                 ∧ (loadModules manager d executables).2 !! i = Some ref))
  ∧ (∀ (outcome : string → RegisterOutcome Handle) (d : Watcher) executables,
       (∀ m location, (registerModule manager m location).2 = outcome location) →
       (loadModules manager d executables).2
         = (λ e, caught (outcome e)) <$> executables
       ∧ ∀ fileName,
           MapFileNameToReference (loadModules manager d executables).1 !! fileName =
           if decide (fileName ∈ executables
                      ∧ isValid (caught (outcome fileName)) = true)
           then Some (caught (outcome fileName))
           else MapFileNameToReference d !! fileName).
Proof.
  split; [|split; [|split; [|split]]].
  - apply loadModules_app.
  - intros d path. rewrite loadModules_singleton. by cbn.
  - apply loadModules_calls.
  - intros d executables fileName ref. rewrite loadModules_map.
    intros [H|[H Hv]]%foldl_storeReference_Some; [by left|right].
    split; [done|]. by apply elem_of_zip_lookup.
  - apply loadModules_deterministic_outcome.
Qed.

(** ** Unloading *)

Lemma lookup_foldl_delete {V} (map : gmap string V) executables p :
  foldl (λ map executable, delete executable map) map executables !! p =
  if decide (p ∈ executables) then None else map !! p.
Proof.
  revert map; induction executables as [|e l IH]; intros map.
  - by rewrite decide_False by apply not_elem_of_nil.
  - cbn [foldl]. rewrite IH, lookup_delete.
    destruct (decide (e = p)) as [->|Hne].
    + rewrite (decide_True (P := p ∈ p :: l)) by left. by case_decide.
    + case_decide as H1; case_decide as H2; try done.
      * destruct H2. by right.
      * by apply elem_of_cons in H2 as [->|?].
Qed.

Lemma RemoveModule_eq m calls location :
  RemoveModule manager (m, calls) location =
  let ref := moduleReference manager m location in
  if isValid ref
  then ((unregisterModule manager m ref,
         calls ++ [CallUnregister location ref]), true)
  else ((m, calls), false).
Proof. reflexivity. Qed.

Lemma unloadModules_nil (d : Watcher) :
  unloadModules manager d [] =
  {| ModuleManager := ModuleManager d;
     FileSystemWatcher := FileSystemWatcher d;
     MapFileNameToReference := MapFileNameToReference d;
     Debug := Debug d;
     ManagerCalls := ManagerCalls d |}.
Proof. reflexivity. Qed.

Lemma unloadModules_singleton (d : Watcher) path :
  unloadModules manager d [path] =
  let ref := moduleReference manager (ModuleManager d) path in
  {| ModuleManager :=
       if isValid ref then unregisterModule manager (ModuleManager d) ref
       else ModuleManager d;
     FileSystemWatcher := FileSystemWatcher d;
     MapFileNameToReference := delete path (MapFileNameToReference d);
     Debug := Debug d;
     ManagerCalls :=
       if isValid ref then ManagerCalls d ++ [CallUnregister path ref]
       else ManagerCalls d |}.
Proof.
  unfold unloadModules. cbn [blockingMapped]. rewrite RemoveModule_eq.
  cbn zeta. by destruct (isValid _).
Qed.

Lemma unloadModules_app (d : Watcher) l1 l2 :
  unloadModules manager d (l1 ++ l2) =
  unloadModules manager (unloadModules manager d l1) l2.
Proof.
  unfold unloadModules at 1 3. rewrite blockingMapped_app, foldl_app. cbn zeta.
  pose proof (unloadModules_map d l1) as Hmap. unfold unloadModules in *.
  destruct (blockingMapped (RemoveModule manager) _ l1) as [[m1 c1] b1].
  cbn [fst snd ModuleManager ManagerCalls MapFileNameToReference
       FileSystemWatcher Debug] in *.
  by destruct (blockingMapped (RemoveModule manager) _ l2) as [[m2 c2] b2].
Qed.

Lemma unloadModules_cons (d : Watcher) path executables :
  unloadModules manager d (path :: executables) =
  unloadModules manager (unloadModules manager d [path]) executables.
Proof. apply (unloadModules_app d [path] executables). Qed.

(** The manager calls of an unload batch are calls of [unregisterModule]
    for paths of the batch, each with a valid reference. *)
Lemma unloadModules_calls (d : Watcher) executables :
  ∃ new, ManagerCalls (unloadModules manager d executables)
         = ManagerCalls d ++ new
    ∧ ∀ c, c ∈ new →
        ∃ path ref, c = CallUnregister path ref ∧ path ∈ executables
                    ∧ isValid ref = true.
Proof.
  revert d; induction executables as [|p l IH]; intros d.
  - exists []. rewrite unloadModules_nil, app_nil_r. split; [done|].
    by intros c ?%elem_of_nil.
  - rewrite unloadModules_cons.
    destruct (IH (unloadModules manager d [p])) as (new & -> & Hnew).
    rewrite unloadModules_singleton. cbn zeta. cbn [ManagerCalls].
    destruct (isValid _) eqn:Hv.
    + eexists (_ :: new). rewrite <- app_assoc. split; [done|].
      intros c [->|Hc]%elem_of_cons.
      * eexists _, _. split; [done|]. split; [by left|done].
      * destruct (Hnew c Hc) as (q & r & -> & ? & ?). eexists _, _.
        split; [done|]. split; [by right|done].
    + exists new. split; [done|].
      intros c Hc. destruct (Hnew c Hc) as (q & r & -> & ? & ?). eexists _, _.
      split; [done|]. split; [by right|done].
Qed.

(** A batch of locations the manager does not know leaves the manager
    alone. *)
Lemma unloadModules_unknown_locations (d : Watcher) executables :
  (∀ path, path ∈ executables →
     isValid (moduleReference manager (ModuleManager d) path) = false) →
  ManagerCalls (unloadModules manager d executables) = ManagerCalls d
  ∧ ModuleManager (unloadModules manager d executables) = ModuleManager d.
Proof.
  revert d; induction executables as [|p l IH]; intros d Hunknown; [done|].
  rewrite unloadModules_cons.
  assert (isValid (moduleReference manager (ModuleManager d) p) = false) as Hp
    by (apply Hunknown; left).
  destruct (IH (unloadModules manager d [p])) as [-> ->].
  - rewrite unloadModules_singleton. cbn zeta. cbn [ModuleManager].
    rewrite Hp. intros q Hq. apply Hunknown. by right.
  - rewrite unloadModules_singleton. cbn zeta.
    cbn [ManagerCalls ModuleManager]. by rewrite Hp.
Qed.

(** C7, as the code has it: an unload batch is the run of its paths one
    after the other.  For each path [RemoveModule] asks the manager for the
    reference of that location, and calls [unregisterModule] exactly when
    the manager has one, whether or not [MapFileNameToReference] has an
    entry for the path; so every manager call of the batch unregisters a
    valid reference of one of its paths, and a batch of locations unknown to
    the manager makes no call.  The entry of every path of the batch is
    removed whatever the manager answered, and the other entries stay (so
    a path without an entry leaves the hash as it was). *)
Theorem unloadModules_unregisters_known_locations (d : Watcher) :
  (∀ before path after,
     unloadModules manager d (before ++ path :: after) =
     unloadModules manager
       (unloadModules manager (unloadModules manager d before) [path]) after)
  ∧ (∀ path,
       let ref := moduleReference manager (ModuleManager d) path in
       ManagerCalls (unloadModules manager d [path]) =
         (if isValid ref then ManagerCalls d ++ [CallUnregister path ref]
          else ManagerCalls d)
       ∧ ModuleManager (unloadModules manager d [path]) =
         (if isValid ref then unregisterModule manager (ModuleManager d) ref
          else ModuleManager d))
  ∧ (∀ executables,
       ∃ new, ManagerCalls (unloadModules manager d executables)
              = ManagerCalls d ++ new
         ∧ ∀ c, c ∈ new →
             ∃ path ref, c = CallUnregister path ref ∧ path ∈ executables
                         ∧ isValid ref = true)
  ∧ (∀ executables,
       (∀ path, path ∈ executables →
          isValid (moduleReference manager (ModuleManager d) path) = false) →
       ManagerCalls (unloadModules manager d executables) = ManagerCalls d
       ∧ ModuleManager (unloadModules manager d executables) = ModuleManager d)
  ∧ (∀ executables path,
       MapFileNameToReference (unloadModules manager d executables) !! path =
       if decide (path ∈ executables) then None
       else MapFileNameToReference d !! path).
Proof.
  split; [|split; [|split; [|split]]].
  - intros before path after.
    by rewrite (unloadModules_app d before), (unloadModules_app _ [path] after).
  - intros path. by rewrite unloadModules_singleton.
  - apply unloadModules_calls.
  - apply unloadModules_unknown_locations.
  - intros executables path. rewrite unloadModules_map.
    apply lookup_foldl_delete.
Qed.

(** ** The watcher's subscription *)

Lemma setModuleReferences_FileSystemWatcher fs (d : Watcher) directories_ :
  FileSystemWatcher (setModuleReferences manager fs d directories_)
  = FileSystemWatcher d.
Proof.
  unfold setModuleReferences.
  by rewrite loadModules_FileSystemWatcher, unloadModules_FileSystemWatcher.
Qed.

(** The methods that answer a notification never reach
    [updateWatchedPaths]: the subscription is the one they found. *)
Lemma updateModuleReferences_FileSystemWatcher fs (d : Watcher) directory :
  FileSystemWatcher (updateModuleReferences manager fs d directory)
  = FileSystemWatcher d.
Proof. apply setModuleReferences_FileSystemWatcher. Qed.

Lemma onDirectoryChanged_FileSystemWatcher fs (d : Watcher) path :
  FileSystemWatcher (onDirectoryChanged manager fs d path) = FileSystemWatcher d.
Proof.
  unfold onDirectoryChanged. case_bool_decide; [|done].
  apply updateModuleReferences_FileSystemWatcher.
Qed.

Lemma onFileChanged_FileSystemWatcher (d d' : Watcher) path :
  onFileChanged manager d path = Some d' →
  FileSystemWatcher d' = FileSystemWatcher d.
Proof.
  unfold onFileChanged. rewrite loadModules_singleton. cbn [front head].
  by intros [= <-].
Qed.

(** ** The two lists of [setModuleReferences] *)

Lemma contains_true l s : contains l s = true ↔ s ∈ l.
Proof. unfold contains. by rewrite bool_decide_eq_true. Qed.

Lemma contains_false l s : contains l s = false ↔ s ∉ l.
Proof. unfold contains. by rewrite bool_decide_eq_false. Qed.

Lemma elem_of_keys (d : Watcher) fileName :
  fileName ∈ keys d ↔ is_Some (MapFileNameToReference d !! fileName).
Proof.
  unfold keys. rewrite list_elem_of_fmap. split.
  - intros ([k r] & -> & H%elem_of_map_to_list). by exists r.
  - intros [r H]. exists (fileName, r). split; [done|].
    by apply elem_of_map_to_list.
Qed.

Lemma elem_of_extractCurrentlyWatchedFilenamesInDirectory fs (d : Watcher) path x :
  x ∈ extractCurrentlyWatchedFilenamesInDirectory fs d path ↔
  dir_exists fs path = true
  ∧ ∃ fileName, is_Some (MapFileNameToReference d !! fileName)
      ∧ file_absolutePath fs fileName = dir_absolutePath fs path
      ∧ x = file_absoluteFilePath fs fileName.
Proof.
  unfold extractCurrentlyWatchedFilenamesInDirectory.
  destruct (dir_exists fs path).
  - rewrite elem_of_flat_map. split.
    + intros (k & Hk%elem_of_keys & Hx). split; [done|].
      case_bool_decide; [|by apply elem_of_nil in Hx].
      apply list_elem_of_singleton in Hx. eauto.
    + intros (_ & k & Hk & Hdir & ->). exists k.
      rewrite elem_of_keys, bool_decide_eq_true_2 by done.
      split; [done|]. by apply list_elem_of_singleton.
  - split; [by intros ?%elem_of_nil|by intros [? _]].
Qed.

Lemma elem_of_getExecutablesInDirectory fs path x :
  x ∈ getExecutablesInDirectory fs path ↔
  dir_exists fs path = true
  ∧ ∃ entry, entry ∈ dir_entryInfoList fs path
      ∧ x = file_absoluteFilePath fs entry.
Proof.
  unfold getExecutablesInDirectory. destruct (dir_exists fs path).
  - rewrite elem_of_flat_map. split.
    + intros (e & He & ->%list_elem_of_singleton). eauto.
    + intros (_ & e & He & ->). exists e. split; [done|].
      by apply list_elem_of_singleton.
  - split; [by intros ?%elem_of_nil|by intros [? _]].
Qed.

Lemma elem_of_modulesToUnload fs (d : Watcher) directories_ x :
  x ∈ modulesToUnload fs d directories_ ↔
  (∃ path, path ∈ directories d ∧ (path ∉ directories_)
     ∧ x ∈ extractCurrentlyWatchedFilenamesInDirectory fs d path)
  ∨ (∃ path, path ∈ directories_ ∧ path ∈ directories d
       ∧ x ∈ extractCurrentlyWatchedFilenamesInDirectory fs d path
       ∧ x ∉ getExecutablesInDirectory fs path).
Proof.
  unfold modulesToUnload. cbn zeta.
  rewrite elem_of_app, !elem_of_flat_map.
  assert (∀ P Q P' Q' : Prop, (P ↔ P') → (Q ↔ Q') → (P ∨ Q ↔ P' ∨ Q'))
    as Hor by tauto.
  apply Hor; clear Hor; split.
  - intros (path & Hp & Hx). exists path.
    destruct (contains directories_ path) eqn:Hc; cbn [negb] in Hx;
      [by apply elem_of_nil in Hx|].
    by apply contains_false in Hc.
  - intros (path & Hp & Hn%contains_false & Hx). exists path.
    by rewrite Hn.
  - intros (path & Hp & Hx). exists path.
    destruct (contains (directories d) path) eqn:Hc;
      [|by apply elem_of_nil in Hx].
    apply contains_true in Hc.
    apply list_elem_of_filter in Hx as [Hx%contains_false ?]. done.
  - intros (path & Hp & Hw%contains_true & Hx & Hn). exists path.
    rewrite Hw. split; [done|]. apply list_elem_of_filter.
    by rewrite contains_false.
Qed.

Lemma elem_of_modulesToLoad fs (d : Watcher) directories_ x :
  x ∈ modulesToLoad fs d directories_ ↔
  ∃ path, path ∈ directories_
    ∧ x ∈ getExecutablesInDirectory fs path
    ∧ (path ∈ directories d
       → x ∉ extractCurrentlyWatchedFilenamesInDirectory fs d path).
Proof.
  unfold modulesToLoad. cbn zeta. rewrite elem_of_flat_map. split.
  - intros (path & Hp & Hx). exists path. split; [done|].
    destruct (contains (directories d) path) eqn:Hc.
    + apply list_elem_of_filter in Hx as [Hx%contains_false ?]. done.
    + apply contains_false in Hc. done.
  - intros (path & Hp & Hx & Hn). exists path. split; [done|].
    destruct (contains (directories d) path) eqn:Hc; [|done].
    apply contains_true in Hc. apply list_elem_of_filter.
    rewrite contains_false. auto.
Qed.

Lemma list_empty_elem_of {A} (l : list A) : (∀ x, x ∉ l) → l = [].
Proof. destruct l as [|x l]; [done|]. intros H. destruct (H x). by left. Qed.

(** With nothing to unload and nothing to load, [setModuleReferences]
    makes no manager call and leaves the hash alone. *)
Lemma setModuleReferences_nothing_to_do fs (d : Watcher) directories_ :
  modulesToUnload fs d directories_ = [] →
  modulesToLoad fs d directories_ = [] →
  setModuleReferences manager fs d directories_ =
  {| ModuleManager := ModuleManager d;
     FileSystemWatcher := FileSystemWatcher d;
     MapFileNameToReference := MapFileNameToReference d;
     Debug := Debug d;
     ManagerCalls := ManagerCalls d |}.
Proof.
  intros Hu Hl. unfold setModuleReferences. cbn zeta. rewrite Hu, Hl.
  by rewrite unloadModules_nil, loadModules_nil.
Qed.

(** ** Replacing the subscription *)

Lemma filter_not_elem_of_subseteq (l k : list string) :
  (∀ p, p ∈ l → p ∈ k) → filter (λ p, p ∉ k) l = [].
Proof.
  intros Hsub. apply list_empty_elem_of.
  intros p [Hn Hp]%list_elem_of_filter. by apply Hn, Hsub.
Qed.

(** [updateWatchedPaths] first drops every path the watcher has, then adds
    the directories and the files it was given. *)
Lemma updateWatchedPaths_FileSystemWatcher fs (d : Watcher) directories_ files_ :
  FileSystemWatcher (updateWatchedPaths fs d directories_ files_) =
  QFSW.addPaths fs (QFSW.addPaths fs QFSW.empty directories_) files_.
Proof.
  unfold updateWatchedPaths. cbn zeta. cbn [FileSystemWatcher].
  set (w1 := if bool_decide (0 < length (directories d)) then _ else _).
  set (w2 := if bool_decide (0 < length (files d)) then _ else _).
  assert (w2 = QFSW.empty) as ->.
  { assert (watched_directories w1 = [] ∧
            ∀ p, p ∈ watched_files w1 → p ∈ files d) as [Hd Hf].
    { subst w1. unfold directories, files. case_bool_decide as Hlen.
      - split; [by apply filter_not_elem_of_subseteq|].
        by intros p [_ ?]%list_elem_of_filter.
      - split; [|done].
        destruct (watched_directories (FileSystemWatcher d)); [done|].
        simpl in Hlen. lia. }
    subst w2. case_bool_decide as Hlen.
    - unfold QFSW.removePaths, QFSW.empty. f_equal.
      + by rewrite Hd.
      + by apply filter_not_elem_of_subseteq.
    - destruct w1 as [wd wf]. simpl in *. subst wd.
      destruct wf as [|p wf]; [done|].
      assert (p ∈ files d) as Hp by (apply Hf; left).
      destruct (files d); [by apply elem_of_nil in Hp|]. simpl in Hlen. lia. }
  by destruct directories_, files_.
Qed.

Lemma elem_of_addPaths_directories fs w paths p :
  p ∈ watched_directories (QFSW.addPaths fs w paths) ↔
  p ∈ watched_directories w
  ∨ (p ∈ paths ∧ QString.isEmpty p = false ∧ dir_exists fs p = true).
Proof.
  unfold QFSW.addPaths. revert w; induction paths as [|q l IH]; intros w.
  - cbn [foldl]. split; [by left|]. by intros [?|[?%elem_of_nil _]].
  - cbn [foldl]. rewrite IH, elem_of_cons. unfold QFSW.addPath.
    destruct (QString.isEmpty q) eqn:Hq; [naive_solver congruence|].
    destruct (dir_exists fs q) eqn:Hdq.
    + destruct (contains _ q) eqn:Hc.
      * apply contains_true in Hc. naive_solver.
      * cbn [watched_directories]. rewrite elem_of_app, list_elem_of_singleton.
        naive_solver.
    + destruct (contains _ q); [naive_solver congruence|].
      destruct (path_exists fs q); cbn [watched_directories];
        naive_solver congruence.
Qed.

Lemma elem_of_addPaths_files fs w paths p :
  p ∈ watched_files (QFSW.addPaths fs w paths) ↔
  p ∈ watched_files w
  ∨ (p ∈ paths ∧ QString.isEmpty p = false ∧ dir_exists fs p = false
     ∧ path_exists fs p = true).
Proof.
  unfold QFSW.addPaths. revert w; induction paths as [|q l IH]; intros w.
  - cbn [foldl]. split; [by left|]. by intros [?|[?%elem_of_nil _]].
  - cbn [foldl]. rewrite IH, elem_of_cons. unfold QFSW.addPath.
    destruct (QString.isEmpty q) eqn:Hq; [naive_solver congruence|].
    destruct (dir_exists fs q) eqn:Hdq.
    + destruct (contains _ q); cbn [watched_files]; naive_solver congruence.
    + destruct (contains _ q) eqn:Hc.
      * apply contains_true in Hc. naive_solver.
      * destruct (path_exists fs q) eqn:He; cbn [watched_files].
        -- rewrite elem_of_app, list_elem_of_singleton. naive_solver.
        -- naive_solver congruence.
Qed.

Lemma elem_of_directories_setDirectories fs (d : Watcher) directories_ p :
  let d1 := setModuleReferences manager fs d
              (filterInvalidDirectories fs directories_) in
  p ∈ directories (setDirectories manager fs d directories_) ↔
  (p ∈ filterInvalidDirectories fs directories_
   ∨ is_Some (MapFileNameToReference d1 !! p))
  ∧ QString.isEmpty p = false ∧ dir_exists fs p = true.
Proof.
  intros d1. unfold setDirectories, directories. cbn zeta.
  rewrite updateWatchedPaths_FileSystemWatcher.
  rewrite !elem_of_addPaths_directories, elem_of_keys.
  cbn [QFSW.empty watched_directories]. rewrite elem_of_nil. fold d1.
  naive_solver.
Qed.

Lemma elem_of_files_setDirectories fs (d : Watcher) directories_ p :
  let d1 := setModuleReferences manager fs d
              (filterInvalidDirectories fs directories_) in
  p ∈ files (setDirectories manager fs d directories_) ↔
  (p ∈ filterInvalidDirectories fs directories_
   ∨ is_Some (MapFileNameToReference d1 !! p))
  ∧ QString.isEmpty p = false ∧ dir_exists fs p = false
  ∧ path_exists fs p = true.
Proof.
  intros d1. unfold setDirectories, files. cbn zeta.
  rewrite updateWatchedPaths_FileSystemWatcher.
  rewrite !elem_of_addPaths_files, elem_of_keys.
  cbn [QFSW.empty watched_files]. rewrite elem_of_nil. fold d1.
  naive_solver.
Qed.

Lemma setDirectories_MapFileNameToReference fs (d : Watcher) directories_ :
  MapFileNameToReference (setDirectories manager fs d directories_) =
  MapFileNameToReference
    (setModuleReferences manager fs d (filterInvalidDirectories fs directories_)).
Proof. reflexivity. Qed.

Lemma setDirectories_ManagerCalls fs (d : Watcher) directories_ :
  ManagerCalls (setDirectories manager fs d directories_) =
  ManagerCalls
    (setModuleReferences manager fs d (filterInvalidDirectories fs directories_)).
Proof. reflexivity. Qed.

Lemma setDirectories_ModuleManager fs (d : Watcher) directories_ :
  ModuleManager (setDirectories manager fs d directories_) =
  ModuleManager
    (setModuleReferences manager fs d (filterInvalidDirectories fs directories_)).
Proof. reflexivity. Qed.

(** ** Dropping a directory *)

Lemma flat_map_unique {A B} (g : A → list B) (l : list A) k0 :
  NoDup l → k0 ∈ l → (∀ k, k ∈ l → k ≠ k0 → g k = []) →
  flat_map g l = g k0.
Proof.
  induction 1 as [|k l Hk Hnd IH]; [by intros ?%elem_of_nil|].
  intros Hin Hothers. cbn [flat_map].
  apply elem_of_cons in Hin as [<-|Hin].
  - assert (flat_map g l = []) as ->; [|by rewrite app_nil_r].
    apply list_empty_elem_of. intros y (k & Hkl & Hy)%elem_of_flat_map.
    rewrite Hothers in Hy; [by apply elem_of_nil in Hy|by right|].
    by intros ->.
  - rewrite IH; [|done|intros k' ? ?; apply Hothers; [by right|done]].
    rewrite Hothers; [done|by left|]. by intros ->.
Qed.

(** The tracked files of a directory, when exactly one key lies in it. *)
Lemma extractCurrentlyWatchedFilenamesInDirectory_unique
    fs (d : Watcher) path fileName :
  dir_exists fs path = true →
  is_Some (MapFileNameToReference d !! fileName) →
  file_absolutePath fs fileName = dir_absolutePath fs path →
  (∀ k, is_Some (MapFileNameToReference d !! k) → k ≠ fileName →
        file_absolutePath fs k ≠ dir_absolutePath fs path) →
  extractCurrentlyWatchedFilenamesInDirectory fs d path
  = [file_absoluteFilePath fs fileName].
Proof.
  intros Hex Hk Hdir Hothers.
  unfold extractCurrentlyWatchedFilenamesInDirectory. rewrite Hex.
  rewrite (flat_map_unique _ _ fileName).
  - by rewrite bool_decide_eq_true_2.
  - apply NoDup_fst_map_to_list.
  - by apply elem_of_keys.
  - intros k Hin%elem_of_keys Hne. rewrite bool_decide_eq_false_2; [done|].
    by apply Hothers.
Qed.

Lemma dropped_directory_unloaded fs (d : Watcher) desired dropped :
  let valid := filterInvalidDirectories fs desired in
  let batch := modulesToUnload fs d valid in
  dropped ∈ directories d → dropped ∉ valid → dir_exists fs dropped = true →
  (∀ x, x ∈ extractCurrentlyWatchedFilenamesInDirectory fs d dropped ↔
        ∃ fileName, is_Some (MapFileNameToReference d !! fileName)
          ∧ file_absolutePath fs fileName = dir_absolutePath fs dropped
          ∧ x = file_absoluteFilePath fs fileName)
  ∧ (∀ x, x ∈ extractCurrentlyWatchedFilenamesInDirectory fs d dropped →
          x ∈ batch
          ∧ MapFileNameToReference (unloadModules manager d batch) !! x = None)
  ∧ (∀ x, x ∈ batch →
          ∃ path, path ∈ directories d
            ∧ x ∈ extractCurrentlyWatchedFilenamesInDirectory fs d path
            ∧ (path ∉ valid ∨ x ∉ getExecutablesInDirectory fs path)).
Proof.
  intros valid batch Hw Hn Hex. split; [|split].
  - intros x. rewrite elem_of_extractCurrentlyWatchedFilenamesInDirectory.
    naive_solver.
  - intros x Hx.
    assert (x ∈ batch) as Hb.
    { apply elem_of_modulesToUnload. left. by exists dropped. }
    split; [done|]. rewrite unloadModules_map, lookup_foldl_delete.
    by rewrite decide_True.
  - intros x [(path & ? & ? & ?)|(path & ? & ? & ? & ?)]%elem_of_modulesToUnload;
      exists path; eauto.
Qed.

Lemma filterInvalidDirectories_singleton fs path :
  filterInvalidDirectories fs [path] = [path] →
  QString.isEmpty path = false ∧ dir_exists fs path = true
  ∧ dir_absolutePath fs path = path.
Proof.
  unfold filterInvalidDirectories. cbn [flat_map]. rewrite app_nil_r.
  destruct (QString.isEmpty path); [by destruct (QString.isNull path)|].
  destruct (_ && _); [|done].
  destruct (dir_exists fs path); [|done]. by intros [= ->].
Qed.

Lemma two_directories_drop_one fs (d : Watcher) A B a b ra rb :
  directories d = [A; B] →
  MapFileNameToReference d = <[a := ra]> {[b := rb]} →
  dir_exists fs A = true →
  file_absolutePath fs a = dir_absolutePath fs A →
  file_absolutePath fs b = dir_absolutePath fs B →
  dir_absolutePath fs A ≠ dir_absolutePath fs B →
  file_absoluteFilePath fs a = a →
  file_absoluteFilePath fs b = b →
  filterInvalidDirectories fs [B] = [B] →
  getExecutablesInDirectory fs B = [b] →
  QString.isEmpty b = false → dir_exists fs b = false → path_exists fs b = true →
  let d' := setDirectories manager fs d [B] in
  let ref := moduleReference manager (ModuleManager d) a in
  modulesToUnload fs d [B] = [a]
  ∧ modulesToLoad fs d [B] = []
  ∧ ManagerCalls d' =
      (if isValid ref then ManagerCalls d ++ [CallUnregister a ref]
       else ManagerCalls d)
  ∧ MapFileNameToReference d' = {[b := rb]}
  ∧ directories d' = [B]
  ∧ files d' = [b].
Proof.
  intros Hdirs Hmap HexA Ha Hb HAB Haf Hbf HfB HscanB Hbne Hbnd Hbex d' ref.
  destruct (filterInvalidDirectories_singleton _ _ HfB) as (HBne & HexB & HabsB).
  assert (A ≠ B) as HneAB by (intros ->; done).
  assert (a ≠ b) as Hneab by (intros ->; congruence).
  assert (∀ k, is_Some (MapFileNameToReference d !! k) ↔ k = a ∨ k = b) as Hkeys.
  { intros k. rewrite Hmap, lookup_insert_is_Some, lookup_singleton_is_Some.
    naive_solver. }
  assert (extractCurrentlyWatchedFilenamesInDirectory fs d A = [a]) as HtA.
  { transitivity [file_absoluteFilePath fs a]; [|by rewrite Haf].
    apply extractCurrentlyWatchedFilenamesInDirectory_unique; try done.
    - apply Hkeys. by left.
    - intros k [-> | ->]%Hkeys ?; [done|congruence]. }
  assert (extractCurrentlyWatchedFilenamesInDirectory fs d B = [b]) as HtB.
  { transitivity [file_absoluteFilePath fs b]; [|by rewrite Hbf].
    apply extractCurrentlyWatchedFilenamesInDirectory_unique; try done.
    - apply Hkeys. by right.
    - intros k [-> | ->]%Hkeys ?; [congruence|done]. }
  assert (contains [B] A = false) as HcA.
  { apply contains_false. by intros ->%list_elem_of_singleton. }
  assert (contains [B] B = true) as HcB by (apply contains_true; left).
  assert (contains [A; B] B = true) as HcAB by (apply contains_true; right; left).
  assert (contains [b] b = true) as Hcb by (apply contains_true; left).
  assert (modulesToUnload fs d [B] = [a]) as HU.
  { unfold modulesToUnload. cbn zeta. rewrite Hdirs. cbn [flat_map].
    rewrite HcA, HcB, HcAB, HtA, HtB, HscanB. cbn [negb app].
    rewrite filter_cons_False by (by rewrite Hcb). done. }
  assert (modulesToLoad fs d [B] = []) as HL.
  { unfold modulesToLoad. cbn zeta. rewrite Hdirs. cbn [flat_map].
    rewrite HcAB, HtB, HscanB.
    rewrite filter_cons_False by (by rewrite Hcb). done. }
  assert (MapFileNameToReference
            (setModuleReferences manager fs d [B]) = {[b := rb]}) as HM.
  { unfold setModuleReferences. cbn zeta. rewrite HU, HL, loadModules_nil.
    cbn [fst MapFileNameToReference]. rewrite unloadModules_map. cbn [foldl].
    rewrite Hmap, delete_insert_eq, delete_singleton_ne; done. }
  split; [done|]. split; [done|]. split; [|split; [|split]].
  - subst d'. rewrite setDirectories_ManagerCalls, HfB.
    unfold setModuleReferences. cbn zeta. rewrite HU, HL, loadModules_nil.
    cbn [fst ManagerCalls]. by rewrite unloadModules_singleton.
  - subst d'. by rewrite setDirectories_MapFileNameToReference, HfB.
  - subst d'. unfold setDirectories, directories. cbn zeta.
    rewrite updateWatchedPaths_FileSystemWatcher, HfB.
    unfold keys. rewrite HM, map_to_list_singleton.
    unfold QFSW.addPaths, QFSW.addPath. cbn [foldl fmap list_fmap fst].
    rewrite HBne, HexB, Hbne, Hbnd, Hbex. done.
  - subst d'. unfold setDirectories, files. cbn zeta.
    rewrite updateWatchedPaths_FileSystemWatcher, HfB.
    unfold keys. rewrite HM, map_to_list_singleton.
    unfold QFSW.addPaths, QFSW.addPath. cbn [foldl fmap list_fmap fst].
    rewrite HBne, HexB, Hbne, Hbnd, Hbex. done.
Qed.

(** X16: in the full reconciliation [setDirectories] runs, a directory that
    is watched, still on disk and no longer among the requested ones has its
    tracked files, that is the files of [MapFileNameToReference] lying in
    it, put in the unload batch and their entries removed; nothing enters
    the batch but a tracked file of a watched directory that is either
    dropped or no longer has the file.  For two watched directories [A] and
    [B] with one tracked file each, [setDirectories([B])] unloads the file
    of [A] only, loads nothing, keeps the entry of the file of [B], and
    afterwards [directories()] is [B] and [files()] is the file of [B]. *)
Theorem setDirectories_drops_directory :
  (∀ fs (d : Watcher) desired dropped,
     let valid := filterInvalidDirectories fs desired in
     let batch := modulesToUnload fs d valid in
     dropped ∈ directories d → dropped ∉ valid → dir_exists fs dropped = true →
     (∀ x, x ∈ extractCurrentlyWatchedFilenamesInDirectory fs d dropped ↔
           ∃ fileName, is_Some (MapFileNameToReference d !! fileName)
             ∧ file_absolutePath fs fileName = dir_absolutePath fs dropped
             ∧ x = file_absoluteFilePath fs fileName)
     ∧ (∀ x, x ∈ extractCurrentlyWatchedFilenamesInDirectory fs d dropped →
             x ∈ batch
             ∧ MapFileNameToReference (unloadModules manager d batch) !! x = None)
     ∧ (∀ x, x ∈ batch →
             ∃ path, path ∈ directories d
               ∧ x ∈ extractCurrentlyWatchedFilenamesInDirectory fs d path
               ∧ (path ∉ valid ∨ x ∉ getExecutablesInDirectory fs path)))
  ∧ (∀ fs (d : Watcher) A B a b ra rb,
       directories d = [A; B] →
       MapFileNameToReference d = <[a := ra]> {[b := rb]} →
       dir_exists fs A = true →
       file_absolutePath fs a = dir_absolutePath fs A →
       file_absolutePath fs b = dir_absolutePath fs B →
       dir_absolutePath fs A ≠ dir_absolutePath fs B →
       file_absoluteFilePath fs a = a →
       file_absoluteFilePath fs b = b →
       filterInvalidDirectories fs [B] = [B] →
       getExecutablesInDirectory fs B = [b] →
       QString.isEmpty b = false → dir_exists fs b = false →
       path_exists fs b = true →
       let d' := setDirectories manager fs d [B] in
       let ref := moduleReference manager (ModuleManager d) a in
       modulesToUnload fs d [B] = [a]
       ∧ modulesToLoad fs d [B] = []
       ∧ ManagerCalls d' =
           (if isValid ref then ManagerCalls d ++ [CallUnregister a ref]
            else ManagerCalls d)
       ∧ MapFileNameToReference d' = {[b := rb]}
       ∧ directories d' = [B]
       ∧ files d' = [b]).
Proof.
  split.
  - apply dropped_directory_unloaded.
  - apply two_directories_drop_one.
Qed.

(** ** A change of one directory *)

Lemma updateModuleReferences_watched fs (d : Watcher) directory :
  directory ∈ directories d →
  updateModuleReferences manager fs d directory
  = setModuleReferences manager fs d (directories d).
Proof.
  intros Hw%contains_true. unfold updateModuleReferences. by rewrite Hw.
Qed.

Lemma onDirectoryChanged_valid fs (d : Watcher) path :
  filterInvalidDirectories fs [path] ≠ [] →
  onDirectoryChanged manager fs d path
  = updateModuleReferences manager fs d path.
Proof.
  intros Hne. unfold onDirectoryChanged. rewrite bool_decide_eq_true_2; [done|].
  destruct (filterInvalidDirectories fs [path]); [done|]. simpl. lia.
Qed.

(** C4, as the code has it: the pass a directory-changed notification
    starts goes through every watched directory.  For a watched directory
    [A] whose tracked files are [x] and [y] and which now holds [x] only,
    it unloads [y] and nothing else and loads nothing, provided the
    tracked files of every other watched directory are the executables that
    directory holds; the entry of [x] and every entry but that of [y] stay
    as they were, and the manager is called for [y] only. *)
Theorem onDirectoryChanged_removed_file fs (d : Watcher) A x y :
  A ∈ directories d →
  filterInvalidDirectories fs [A] ≠ [] →
  (∀ f, f ∈ extractCurrentlyWatchedFilenamesInDirectory fs d A ↔ f = x ∨ f = y) →
  (∀ f, f ∈ getExecutablesInDirectory fs A ↔ f = x) →
  x ≠ y →
  (∀ B f, B ∈ directories d → B ≠ A →
          f ∈ extractCurrentlyWatchedFilenamesInDirectory fs d B
          ↔ f ∈ getExecutablesInDirectory fs B) →
  let d' := onDirectoryChanged manager fs d A in
  (∀ f, f ∈ modulesToUnload fs d (directories d) ↔ f = y)
  ∧ modulesToLoad fs d (directories d) = []
  ∧ MapFileNameToReference d' !! y = None
  ∧ MapFileNameToReference d' !! x = MapFileNameToReference d !! x
  ∧ (∀ f, f ≠ y → MapFileNameToReference d' !! f = MapFileNameToReference d !! f)
  ∧ ∃ new, ManagerCalls d' = ManagerCalls d ++ new
      ∧ ∀ c, c ∈ new → ∃ ref, c = CallUnregister y ref.
Proof.
  intros HA Hvalid Htracked Hdisk Hxy Hsync d'.
  assert (∀ f, f ∈ modulesToUnload fs d (directories d) ↔ f = y) as HU.
  { intros f. rewrite elem_of_modulesToUnload. split.
    - intros [(path & ? & ? & _)|(path & _ & Hw & Ht & Hn)]; [done|].
      destruct (decide (path = A)) as [->|Hne].
      + apply Htracked in Ht as [-> | ->]; [|done]. destruct Hn. by apply Hdisk.
      + destruct Hn. by apply Hsync.
    - intros ->. right. exists A. split; [done|]. split; [done|]. split.
      + apply Htracked. by right.
      + by intros ?%Hdisk. }
  assert (modulesToLoad fs d (directories d) = []) as HL.
  { apply list_empty_elem_of. intros f (path & Hw & He & Hn)%elem_of_modulesToLoad.
    apply (Hn Hw). destruct (decide (path = A)) as [->|Hne].
    - apply Htracked. left. by apply Hdisk.
    - by apply Hsync. }
  assert (d' = (loadModules manager
                  (unloadModules manager d
                     (modulesToUnload fs d (directories d))) []).1) as Hd'.
  { subst d'. rewrite onDirectoryChanged_valid, updateModuleReferences_watched by done.
    unfold setModuleReferences. cbn zeta. by rewrite HL. }
  assert (∀ f, MapFileNameToReference d' !! f =
               if decide (f = y) then None else MapFileNameToReference d !! f)
    as Hmap.
  { intros f. rewrite Hd', loadModules_nil. cbn [fst MapFileNameToReference].
    rewrite unloadModules_map, lookup_foldl_delete.
    destruct (decide (f = y)) as [->|Hne].
    - rewrite decide_True; [done|]. by apply HU.
    - rewrite decide_False; [done|]. by intros ?%HU. }
  split; [done|]. split; [done|]. split; [|split; [|split]].
  - rewrite Hmap. by rewrite decide_True.
  - rewrite Hmap. by rewrite decide_False.
  - intros f Hne. rewrite Hmap. by rewrite decide_False.
  - rewrite Hd', loadModules_nil. cbn [fst ManagerCalls].
    destruct (unloadModules_calls d (modulesToUnload fs d (directories d)))
      as (new & -> & Hnew).
    exists new. split; [done|]. intros c Hc.
    destruct (Hnew c Hc) as (path & ref & -> & ->%HU & _). by exists ref.
Qed.

(** ** Calling [setDirectories] twice *)

Lemma foldl_storeReference_stored (map : gmap string Ref) ers p r :
  (p, r) ∈ ers → isValid r = true →
  is_Some (foldl storeReference map ers !! p).
Proof.
  revert map; induction ers as [|er ers IH]; intros map Hin Hv;
    [by apply elem_of_nil in Hin|].
  cbn [foldl]. apply elem_of_cons in Hin as [<-|Hin]; [|by apply IH].
  apply foldl_storeReference_is_Some. rewrite storeReference_lookup.
  rewrite decide_True; [by eexists|done].
Qed.

Section Idempotence.

Variable fs : FileSystem.
Variable d : Watcher.
Variable requested : list string.

Let valid := filterInvalidDirectories fs requested.
Let toUnload := modulesToUnload fs d valid.
Let toLoad := modulesToLoad fs d valid.
Let d1 := setDirectories manager fs d requested.

(** The watched directories are absolute paths. *)
Hypothesis watched_absolute :
  ∀ p, p ∈ directories d → dir_absolutePath fs p = p.

(** The tracked files are absolute file names, not directories, and each
    lies in a watched directory. *)
Hypothesis tracked_in_watched :
  ∀ k, is_Some (MapFileNameToReference d !! k) →
    file_absoluteFilePath fs k = k ∧ dir_exists fs k = false
    ∧ ∃ p, p ∈ directories d ∧ file_absolutePath fs k = dir_absolutePath fs p.

(** What [filterInvalidDirectories] lets through is a non-empty absolute
    path of a directory. *)
Hypothesis valid_absolute :
  ∀ p, p ∈ valid →
    QString.isEmpty p = false ∧ dir_exists fs p = true
    ∧ dir_absolutePath fs p = p.

(** The executables listed for a directory are absolute names of files
    lying in that directory. *)
Hypothesis scan_consistent :
  ∀ p x, p ∈ valid → x ∈ getExecutablesInDirectory fs p →
    file_absolutePath fs x = dir_absolutePath fs p
    ∧ file_absoluteFilePath fs x = x ∧ dir_exists fs x = false.

(** Every registration the first call asked for gave a module. *)
Hypothesis first_call_registers :
  ∀ ref,
    ref ∈ (loadModules manager (unloadModules manager d toUnload) toLoad).2 →
    isValid ref = true.

Lemma first_call_map :
  MapFileNameToReference d1 =
  foldl storeReference
    (foldl (λ map executable, delete executable map)
           (MapFileNameToReference d) toUnload)
    (zip toLoad (loadModules manager (unloadModules manager d toUnload) toLoad).2).
Proof using Type.
  unfold d1. rewrite setDirectories_MapFileNameToReference.
  unfold setModuleReferences. cbn zeta.
  by rewrite loadModules_map, unloadModules_map.
Qed.

Lemma first_call_loaded k :
  k ∈ toLoad → is_Some (MapFileNameToReference d1 !! k).
Proof using first_call_registers.
  intros Hk. rewrite first_call_map.
  apply list_elem_of_lookup in Hk as [i Hi].
  pose proof (loadModules_length (unloadModules manager d toUnload) toLoad) as Hlen.
  destruct (lookup_lt_is_Some_2
              (loadModules manager (unloadModules manager d toUnload) toLoad).2 i)
    as [r Hr].
  { rewrite Hlen. by eapply lookup_lt_Some. }
  apply (foldl_storeReference_stored _ _ k r).
  - apply elem_of_zip_lookup. eauto.
  - apply first_call_registers. by eapply list_elem_of_lookup_2.
Qed.

Lemma first_call_kept k :
  is_Some (MapFileNameToReference d !! k) → k ∉ toUnload →
  is_Some (MapFileNameToReference d1 !! k).
Proof using Type.
  intros Hk Hn. rewrite first_call_map. apply foldl_storeReference_is_Some.
  by rewrite lookup_foldl_delete, decide_False.
Qed.

Lemma first_call_tracked k :
  is_Some (MapFileNameToReference d1 !! k) →
  k ∈ toLoad ∨ (is_Some (MapFileNameToReference d !! k) ∧ k ∉ toUnload).
Proof using Type.
  rewrite first_call_map. intros [r [H|[H _]]%foldl_storeReference_Some].
  - right. rewrite lookup_foldl_delete in H. case_decide; [done|]. eauto.
  - left. apply elem_of_zip_lookup in H as (i & Hi & _).
    by eapply list_elem_of_lookup_2.
Qed.

(** A file the first call scanned in a requested directory is tracked
    after it. *)
Lemma first_call_tracks_executables path x :
  path ∈ valid → x ∈ getExecutablesInDirectory fs path →
  is_Some (MapFileNameToReference d1 !! x).
Proof using watched_absolute tracked_in_watched valid_absolute scan_consistent
            first_call_registers.
  intros Hp Hx.
  destruct (scan_consistent path x Hp Hx) as (Hpar & Habs & _).
  destruct (valid_absolute path Hp) as (_ & Hex & Hpabs).
  destruct (decide (x ∈ toLoad)) as [|Hnl]; [by apply first_call_loaded|].
  assert (path ∈ directories d
          ∧ x ∈ extractCurrentlyWatchedFilenamesInDirectory fs d path)
    as [Hw Ht].
  { destruct (decide (path ∈ directories d)) as [Hw|Hnw].
    - split; [done|].
      destruct (decide (x ∈ extractCurrentlyWatchedFilenamesInDirectory fs d path));
        [done|].
      destruct Hnl. apply elem_of_modulesToLoad. exists path. eauto.
    - destruct Hnl. apply elem_of_modulesToLoad. exists path. eauto. }
  apply elem_of_extractCurrentlyWatchedFilenamesInDirectory in Ht
    as (_ & k & Hk & _ & ->).
  destruct (tracked_in_watched k Hk) as (Hkabs & _ & _). rewrite Hkabs in *.
  apply first_call_kept; [done|].
  intros [(p0 & Hw0 & Hn0 & Ht0)|(p0 & Hv0 & Hw0 & Ht0 & Hn0)]%elem_of_modulesToUnload.
  - apply elem_of_extractCurrentlyWatchedFilenamesInDirectory in Ht0
      as (_ & k' & Hk' & Hpar' & Heq).
    destruct (tracked_in_watched k' Hk') as (Hk'abs & _ & _).
    rewrite Hk'abs in Heq. subst k'.
    rewrite (watched_absolute p0 Hw0) in Hpar'.
    rewrite Hpar, Hpabs in Hpar'. by subst p0.
  - apply elem_of_extractCurrentlyWatchedFilenamesInDirectory in Ht0
      as (_ & k' & Hk' & Hpar' & Heq).
    destruct (tracked_in_watched k' Hk') as (Hk'abs & _ & _).
    rewrite Hk'abs in Heq. subst k'.
    rewrite (watched_absolute p0 Hw0) in Hpar'.
    rewrite Hpar, Hpabs in Hpar'. by subst p0.
Qed.

(** A file tracked after the first call that lies in a requested directory
    is an executable of that directory. *)
Lemma first_call_tracks_only_executables path k :
  path ∈ valid → is_Some (MapFileNameToReference d1 !! k) →
  file_absolutePath fs k = dir_absolutePath fs path →
  file_absoluteFilePath fs k = k ∧ k ∈ getExecutablesInDirectory fs path.
Proof using watched_absolute tracked_in_watched valid_absolute scan_consistent.
  intros Hp Hk Hpar.
  destruct (valid_absolute path Hp) as (_ & Hex & Hpabs).
  apply first_call_tracked in Hk
    as [(p' & Hp' & Hx & _)%elem_of_modulesToLoad|[Hk Hn]].
  - destruct (scan_consistent p' k Hp' Hx) as (Hpar' & Habs & _).
    destruct (valid_absolute p' Hp') as (_ & _ & Hp'abs).
    split; [done|]. assert (p' = path) as -> by congruence. done.
  - destruct (tracked_in_watched k Hk) as (Habs & _ & p0 & Hw0 & Hpar0).
    split; [done|].
    rewrite (watched_absolute p0 Hw0) in Hpar0.
    assert (p0 = path) as -> by congruence.
    destruct (decide (k ∈ getExecutablesInDirectory fs path)) as [|Hne]; [done|].
    destruct Hn. apply elem_of_modulesToUnload. right. exists path.
    split; [done|]. split; [done|]. split; [|done].
    apply elem_of_extractCurrentlyWatchedFilenamesInDirectory.
    split; [done|]. exists k. by rewrite Habs.
Qed.

(** After the first call the watched directories are the requested ones. *)
Lemma first_call_directories p : p ∈ directories d1 ↔ p ∈ valid.
Proof using tracked_in_watched valid_absolute scan_consistent.
  unfold d1. rewrite elem_of_directories_setDirectories. cbn zeta. split.
  - intros ([Hp|Hk] & _ & Hdir); [done|]. exfalso.
    change (is_Some (MapFileNameToReference d1 !! p)) in Hk.
    apply first_call_tracked in Hk
      as [(p' & Hp' & Hx & _)%elem_of_modulesToLoad|[Hk _]].
    + destruct (scan_consistent p' p Hp' Hx) as (_ & _ & ?). congruence.
    + destruct (tracked_in_watched p Hk) as (_ & ? & _). congruence.
  - intros Hp. destruct (valid_absolute p Hp) as (? & ? & _). eauto.
Qed.

Lemma second_call_nothing_to_unload : modulesToUnload fs d1 valid = [].
Proof using watched_absolute tracked_in_watched valid_absolute scan_consistent.
  apply list_empty_elem_of.
  intros x [(p & Hw & Hn & _)|(p & Hp & _ & Ht & Hn)]%elem_of_modulesToUnload.
  - by apply first_call_directories in Hw.
  - apply elem_of_extractCurrentlyWatchedFilenamesInDirectory in Ht
      as (_ & k & Hk & Hpar & ->).
    destruct (first_call_tracks_only_executables p k Hp Hk Hpar) as [Habs Hx].
    by rewrite Habs in Hn.
Qed.

Lemma second_call_nothing_to_load : modulesToLoad fs d1 valid = [].
Proof using watched_absolute tracked_in_watched valid_absolute scan_consistent
            first_call_registers.
  apply list_empty_elem_of.
  intros x (p & Hp & Hx & Hn)%elem_of_modulesToLoad.
  apply Hn; [by apply first_call_directories|].
  destruct (scan_consistent p x Hp Hx) as (Hpar & Habs & _).
  destruct (valid_absolute p Hp) as (_ & Hex & _).
  apply elem_of_extractCurrentlyWatchedFilenamesInDirectory.
  split; [done|]. exists x. split; [|by rewrite Habs].
  by apply (first_call_tracks_executables p).
Qed.

(** C8, as the code has it: on an unchanged disk, a second call of
    [setDirectories] with the same list has nothing to unload and nothing to
    load, makes no manager call and leaves [MapFileNameToReference] as the
    first call left it, when the state before the first call kept its tracked
    files inside its watched directories and every registration of the first
    call gave a module.  (A file whose registration failed is not tracked,
    so the next call finds it again and asks the manager once more.) *)
Theorem setDirectories_twice :
  modulesToUnload fs d1 valid = []
  ∧ modulesToLoad fs d1 valid = []
  ∧ ManagerCalls (setDirectories manager fs d1 requested) = ManagerCalls d1
  ∧ ModuleManager (setDirectories manager fs d1 requested) = ModuleManager d1
  ∧ MapFileNameToReference (setDirectories manager fs d1 requested)
    = MapFileNameToReference d1.
Proof using watched_absolute tracked_in_watched valid_absolute scan_consistent
            first_call_registers.
  pose proof second_call_nothing_to_unload as HU.
  pose proof second_call_nothing_to_load as HL.
  split; [done|]. split; [done|].
  rewrite setDirectories_ManagerCalls, setDirectories_ModuleManager,
    (setDirectories_MapFileNameToReference fs d1).
  fold valid. by rewrite setModuleReferences_nothing_to_do.
Qed.

End Idempotence.

End WatcherFacts.

(** ** The watcher at work

    Runs of the watcher on the scenarios: instances of the statements
    above, and the places where the code parts from what one may expect
    of it. *)

Import Table Scenario.

Ltac list_cases H :=
  repeat (apply elem_of_cons in H as [->|H]); [..|by apply elem_of_nil in H].

(** C1 fails as first stated: [/A/x] is tracked with handle 1; the file
    changes and no longer registers; after [onFileChanged] the hash still
    has the old reference for it. *)
Lemma onFileChanged_failed_reload_keeps_entry :
  ∃ d', onFileChanged rejects watching_A "/A/x" = Some d'
    ∧ (loadModules rejects watching_A ["/A/x"]).2 = [NullReference]
    ∧ MapFileNameToReference watching_A !! "/A/x" = Some (Reference 1)
    ∧ MapFileNameToReference d' !! "/A/x" = Some (Reference 1).
Proof.
  eexists. split; [reflexivity|]. split; [reflexivity|].
  split; vm_compute; reflexivity.
Qed.

(** C6 on a batch of three files of which the second does not register. *)
Lemma loadModules_isolates_failures_example :
  let d' := (loadModules rejects_y fresh ["/A/x"; "/A/y"; "/A/z"]).1 in
  (loadModules rejects_y fresh ["/A/x"; "/A/y"; "/A/z"]).2
    = [Reference 1; NullReference; Reference 3]
  ∧ ManagerCalls d' =
      [CallRegister "/A/x"; CallRegister "/A/y"; CallRegister "/A/z"]
  ∧ MapFileNameToReference d' !! "/A/x" = Some (Reference 1)
  ∧ MapFileNameToReference d' !! "/A/y" = None
  ∧ MapFileNameToReference d' !! "/A/z" = Some (Reference 3).
Proof.
  pose (outcome := λ location,
          match accepting [("/A/x", 1); ("/A/z", 3)] location with
          | Some h => Returned (Reference h)
          | None => ThrowsCtkException
          end).
  assert (∀ m location,
            (registerModule rejects_y m location).2 = outcome location) as Hout.
  { intros m location. subst outcome. cbn.
    by destruct (accepting _ location). }
  destruct (loadModules_isolates_failures rejects_y)
    as (_ & _ & Hcalls & _ & Hdet).
  destruct (Hdet outcome fresh ["/A/x"; "/A/y"; "/A/z"] Hout) as [Hrefs Hmap].
  cbn zeta. split; [exact Hrefs|]. split; [apply Hcalls|].
  rewrite !Hmap. repeat split; vm_compute; reflexivity.
Defined.

(** C7 fails as first stated: the hash has no entry for [/A/x], the
    manager knows the location (another of its clients registered it), and
    unloading the path unregisters the module. *)
Lemma unloadModules_follows_the_manager :
  MapFileNameToReference shared_manager_watcher !! "/A/x" = None
  ∧ moduleReference rejects (ModuleManager shared_manager_watcher) "/A/x"
    = Reference 1
  ∧ ManagerCalls (unloadModules rejects shared_manager_watcher ["/A/x"])
    = ManagerCalls shared_manager_watcher
      ++ [CallUnregister "/A/x" (Reference 1)]
  ∧ moduleReference rejects
      (ModuleManager (unloadModules rejects shared_manager_watcher ["/A/x"]))
      "/A/x"
    = NullReference.
Proof. repeat split; vm_compute; reflexivity. Qed.

(** C2 on the code: [updateModuleReferences] for an existing directory
    that is not watched loads its executables as for a new directory, and
    the directory is not among the watched ones afterwards. *)
Theorem updateModuleReferences_unwatched_directory :
  let d' := updateModuleReferences registers disk_A_x fresh "/A" in
  ("/A" ∉ directories fresh)
  ∧ filterInvalidDirectories disk_A_x ["/A"] = ["/A"]
  ∧ onDirectoryChanged registers disk_A_x fresh "/A" = d'
  ∧ ManagerCalls d' = [CallRegister "/A/x"]
  ∧ keys d' = ["/A/x"]
  ∧ directories d' = []
  ∧ "/A" ∉ directories d'.
Proof.
  cbn zeta. split; [by intros ?%elem_of_nil|].
  split; [reflexivity|]. split; [reflexivity|]. split; [reflexivity|].
  split; [by vm_compute|]. split; [reflexivity|]. by intros ?%elem_of_nil.
Qed.

(** C3 on the code: [/A] is watched and [/A/x] tracked and subscribed; [y]
    appears in [/A]; after [onDirectoryChanged] the hash has [/A/y] too, and
    the subscription is the old one, without [/A/y]. *)
Theorem onDirectoryChanged_new_file_not_subscribed :
  let d' := onDirectoryChanged registers disk_A_xy watching_A "/A" in
  directories watching_A = ["/A"] ∧ files watching_A = keys watching_A
  ∧ keys d' = ["/A/y"; "/A/x"]
  ∧ directories d' = ["/A"]
  ∧ files d' = ["/A/x"]
  ∧ "/A/y" ∉ files d'.
Proof.
  cbn zeta. repeat split; try (vm_compute; reflexivity).
  apply (bool_decide_unpack _). by vm_compute.
Qed.

(** C4 fails as first stated: [/A] and [/B] are watched, [/A/x] and [/A/y]
    tracked, and [/B/z] is on disk but did not register; [y] is removed and
    nothing else changes; the pass for the notification of [/A] also asks
    the manager to register [/B/z]. *)
Lemma onDirectoryChanged_reconciles_other_directories :
  let d := watching_A_B_without_z in
  let d' := onDirectoryChanged rejects_z disk_A_x_B_z d "/A" in
  directories d = ["/A"; "/B"]
  ∧ keys d = ["/A/y"; "/A/x"]
  ∧ getExecutablesInDirectory disk_A_x_B_z "/A" = ["/A/x"]
  ∧ getExecutablesInDirectory disk_A_x_B_z "/B"
    = getExecutablesInDirectory disk_A_xy_B_z "/B"
  ∧ file_absolutePath disk_A_x_B_z "/B/z" = "/B"
  ∧ modulesToLoad disk_A_x_B_z d (directories d) = ["/B/z"]
  ∧ ManagerCalls d' =
      ManagerCalls d ++ [CallUnregister "/A/y" (Reference 2); CallRegister "/B/z"].
Proof. cbn zeta. repeat split; vm_compute; reflexivity. Qed.

(** C4 where [/B] is in step with the disk: [y] is unloaded and nothing
    else happens. *)
Lemma onDirectoryChanged_removed_file_example :
  let d' := onDirectoryChanged registers disk_A_x_B_z watching_A_B "/A" in
  (∀ f, f ∈ modulesToUnload disk_A_x_B_z watching_A_B (directories watching_A_B)
        ↔ f = "/A/y")
  ∧ modulesToLoad disk_A_x_B_z watching_A_B (directories watching_A_B) = []
  ∧ MapFileNameToReference d' !! "/A/y" = None
  ∧ MapFileNameToReference d' !! "/A/x"
    = MapFileNameToReference watching_A_B !! "/A/x"
  ∧ (∀ f, f ≠ "/A/y" →
          MapFileNameToReference d' !! f = MapFileNameToReference watching_A_B !! f)
  ∧ ∃ new, ManagerCalls d' = ManagerCalls watching_A_B ++ new
      ∧ ∀ c, c ∈ new → ∃ ref, c = CallUnregister "/A/y" ref.
Proof.
  apply (onDirectoryChanged_removed_file registers disk_A_x_B_z watching_A_B
           "/A" "/A/x" "/A/y").
  - apply (bool_decide_unpack _). by vm_compute.
  - by vm_compute.
  - intros f.
    change (extractCurrentlyWatchedFilenamesInDirectory disk_A_x_B_z watching_A_B "/A")
      with ["/A/y"; "/A/x"].
    rewrite !elem_of_cons, elem_of_nil. naive_solver.
  - intros f.
    change (getExecutablesInDirectory disk_A_x_B_z "/A") with ["/A/x"].
    rewrite !elem_of_cons, elem_of_nil. naive_solver.
  - done.
  - intros B f HB Hne.
    change (directories watching_A_B) with ["/A"; "/B"] in HB.
    list_cases HB; [done|].
    change (extractCurrentlyWatchedFilenamesInDirectory disk_A_x_B_z watching_A_B "/B")
      with ["/B/z"].
    by change (getExecutablesInDirectory disk_A_x_B_z "/B") with ["/B/z"].
Defined.

(** X16 on the disk with [/A/x] and [/B/z], both directories watched. *)
Lemma setDirectories_drops_directory_example :
  let d := watching_A_x_B_z in
  let d' := setDirectories registers disk_A_x_B_z d ["/B"] in
  (∀ x, x ∈ extractCurrentlyWatchedFilenamesInDirectory disk_A_x_B_z d "/A" →
        x ∈ modulesToUnload disk_A_x_B_z d
              (filterInvalidDirectories disk_A_x_B_z ["/B"])
        ∧ MapFileNameToReference
            (unloadModules registers d
               (modulesToUnload disk_A_x_B_z d
                  (filterInvalidDirectories disk_A_x_B_z ["/B"]))) !! x = None)
  ∧ modulesToUnload disk_A_x_B_z d ["/B"] = ["/A/x"]
  ∧ modulesToLoad disk_A_x_B_z d ["/B"] = []
  ∧ ManagerCalls d' = ManagerCalls d ++ [CallUnregister "/A/x" (Reference 1)]
  ∧ MapFileNameToReference d' = {[ "/B/z" := Reference 3 ]}
  ∧ directories d' = ["/B"]
  ∧ files d' = ["/B/z"].
Proof.
  cbn zeta. split.
  - apply (proj1 (setDirectories_drops_directory registers)
             disk_A_x_B_z watching_A_x_B_z ["/B"] "/A").
    + apply (bool_decide_unpack _). by vm_compute.
    + apply (bool_decide_unpack _). by vm_compute.
    + reflexivity.
  - apply (proj2 (setDirectories_drops_directory registers)
             disk_A_x_B_z watching_A_x_B_z "/A" "/B" "/A/x" "/B/z"
             (Reference 1) (Reference 3)); try reflexivity; done.
Defined.

(** C5 on the code: [/A] and [/B] are watched, [/A/x] and [/B/z] tracked;
    [/A] is deleted from the disk and [setDirectories(["/B"])] drops it.
    The files tracked in [/A] are not found, since the directory does not
    exist: the unload list is empty, no manager call is made, and [/A/x]
    stays in the hash with its reference although [/A] is no longer watched. *)
Theorem setDirectories_vanished_directory_not_unloaded :
  let d := watching_A_x_B_z in
  let d' := setDirectories registers disk_B_z d ["/B"] in
  directories d = ["/A"; "/B"]
  ∧ MapFileNameToReference d !! "/A/x" = Some (Reference 1)
  ∧ file_absolutePath disk_B_z "/A/x" = dir_absolutePath disk_B_z "/A"
  ∧ filterInvalidDirectories disk_B_z ["/B"] = ["/B"]
  ∧ dir_exists disk_B_z "/A" = false
  ∧ extractCurrentlyWatchedFilenamesInDirectory disk_B_z d "/A" = []
  ∧ modulesToUnload disk_B_z d ["/B"] = []
  ∧ ManagerCalls d' = ManagerCalls d
  ∧ MapFileNameToReference d' !! "/A/x" = Some (Reference 1)
  ∧ moduleReference registers (ModuleManager d') "/A/x" = Reference 1
  ∧ directories d' = ["/B"]
  ∧ files d' = ["/B/z"].
Proof. cbn zeta. repeat split; vm_compute; reflexivity. Qed.

(** C8 fails as first stated: [/A/y] does not register; the first call
    asks the manager for it, and so does the second. *)
Lemma setDirectories_twice_retries_failed_registration :
  let d1 := setDirectories rejects_y disk_A_xy fresh ["/A"] in
  let d2 := setDirectories rejects_y disk_A_xy d1 ["/A"] in
  modulesToLoad disk_A_xy d1 (filterInvalidDirectories disk_A_xy ["/A"]) = ["/A/y"]
  ∧ ManagerCalls d1 = [CallRegister "/A/x"; CallRegister "/A/y"]
  ∧ ManagerCalls d2 = ManagerCalls d1 ++ [CallRegister "/A/y"].
Proof. cbn zeta. repeat split; vm_compute; reflexivity. Qed.

(** C8 where every registration succeeds: [/A] has lost [y] and [/B] has
    gained [z] since the directories were set; the first call unloads the one
    and loads the other, the second does nothing. *)
Lemma setDirectories_twice_example :
  let fs := disk_A_x_B_z in
  let requested := ["/B"; "  "; "/C"; "/A"] in
  let d1 := setDirectories registers fs watching_A_B_empty requested in
  let d2 := setDirectories registers fs d1 requested in
  ManagerCalls d1
    = ManagerCalls watching_A_B_empty
      ++ [CallUnregister "/A/y" (Reference 2); CallRegister "/B/z"]
  ∧ modulesToUnload fs d1 (filterInvalidDirectories fs requested) = []
  ∧ modulesToLoad fs d1 (filterInvalidDirectories fs requested) = []
  ∧ ManagerCalls d2 = ManagerCalls d1
  ∧ ModuleManager d2 = ModuleManager d1
  ∧ MapFileNameToReference d2 = MapFileNameToReference d1.
Proof.
  cbn zeta. split; [by vm_compute|].
  apply (setDirectories_twice registers disk_A_x_B_z watching_A_B_empty
           ["/B"; "  "; "/C"; "/A"]).
  - done.
  - intros k Hk%elem_of_keys.
    change (keys watching_A_B_empty) with ["/A/y"; "/A/x"] in Hk.
    list_cases Hk; (split; [done|]; split; [done|]; exists "/A";
      split; [apply (bool_decide_unpack _); by vm_compute|done]).
  - intros p Hp.
    change (filterInvalidDirectories disk_A_x_B_z ["/B"; "  "; "/C"; "/A"])
      with ["/B"; "/A"] in Hp.
    list_cases Hp; done.
  - intros p x Hp Hx.
    change (filterInvalidDirectories disk_A_x_B_z ["/B"; "  "; "/C"; "/A"])
      with ["/B"; "/A"] in Hp.
    list_cases Hp.
    + change (getExecutablesInDirectory disk_A_x_B_z "/B") with ["/B/z"] in Hx.
      list_cases Hx; done.
    + change (getExecutablesInDirectory disk_A_x_B_z "/A") with ["/A/x"] in Hx.
      list_cases Hx; done.
  - intros ref Href.
    match type of Href with _ ∈ ?l =>
      let l' := eval vm_compute in l in change l with l' in Href end.
    list_cases Href; done.
Defined.

(** ** Further properties of the watcher *)

Section WatcherProperties.

Context {Handle M : Type}.
Variable manager : ctkCmdLineModuleManager Handle M.

Abbreviation Ref := (ctkCmdLineModuleReference Handle).
Abbreviation Watcher := (ctkCmdLineModuleDirectoryWatcherPrivate Handle M).

(** *** Filtering the requested directories *)

Lemma dropLeadingSpace_hasNonSpace s :
  hasNonSpace (QString.dropLeadingSpace s) = hasNonSpace s.
Proof.
  induction s as [|c s IH]; [done|]. cbn [QString.dropLeadingSpace].
  destruct (QString.isSpace c) eqn:Hc; [|done].
  rewrite IH. unfold hasNonSpace. cbn. by rewrite Hc.
Qed.

Lemma dropLeadingSpace_isEmpty s :
  QString.isEmpty (QString.dropLeadingSpace s) = negb (hasNonSpace s).
Proof.
  induction s as [|c s IH]; [done|]. cbn [QString.dropLeadingSpace].
  unfold hasNonSpace in *. cbn.
  destruct (QString.isSpace c) eqn:Hc; [by rewrite IH|done].
Qed.

Lemma existsb_reverse {A} (f : A → bool) l : existsb f (rev l) = existsb f l.
Proof.
  induction l as [|x l IH]; [done|]. cbn [rev existsb].
  rewrite existsb_app, IH. cbn. by rewrite orb_false_r, orb_comm.
Qed.

Lemma reverse_hasNonSpace s : hasNonSpace (QString.reverse s) = hasNonSpace s.
Proof.
  unfold hasNonSpace, QString.reverse.
  by rewrite list_ascii_of_string_of_list_ascii, existsb_reverse.
Qed.

Lemma reverse_isEmpty s : QString.isEmpty (QString.reverse s) = QString.isEmpty s.
Proof.
  unfold QString.reverse. destruct s as [|c s]; [done|]. cbn.
  by destruct (rev (list_ascii_of_string s)).
Qed.

(** Trimming leaves the empty string exactly when every character is white
    space. *)
Lemma trimmed_isEmpty s :
  QString.isEmpty (QString.trimmed s) = negb (hasNonSpace s).
Proof.
  unfold QString.trimmed.
  by rewrite reverse_isEmpty, dropLeadingSpace_isEmpty, reverse_hasNonSpace,
    dropLeadingSpace_hasNonSpace.
Qed.

Lemma hasNonSpace_isEmpty s : hasNonSpace s = true → QString.isEmpty s = false.
Proof. by destruct s. Qed.

Lemma filterInvalidDirectories_filter fs directories_ :
  filterInvalidDirectories fs directories_ =
  dir_absolutePath fs
    <$> filter (λ path, hasNonSpace path = true ∧ dir_exists fs path = true)
               directories_.
Proof.
  induction directories_ as [|path l IH]; [done|].
  unfold filterInvalidDirectories in *. cbn [flat_map]. rewrite IH.
  rewrite trimmed_isEmpty, negb_involutive. unfold QString.isNull.
  destruct (hasNonSpace path) eqn:Hns.
  - rewrite (hasNonSpace_isEmpty _ Hns). cbn [negb andb].
    destruct (dir_exists fs path) eqn:Hex.
    + by rewrite filter_cons_True.
    + rewrite filter_cons_False; [done|]. intros [_ ?]. congruence.
  - rewrite !andb_false_r. rewrite filter_cons_False; [done|].
    intros [? _]. congruence.
Qed.

(** X1: [filterInvalidDirectories] answers, in the order of the input and
    with repetitions kept, the absolute path of every input path that has a
    character [QChar::isSpace] rejects and names an existing directory; the
    other paths are dropped without an error, so the answer is never longer
    than the input. *)
Theorem filterInvalidDirectories_keeps_existing_nonblank fs directories_ :
  filterInvalidDirectories fs directories_ =
    dir_absolutePath fs
      <$> filter (λ path, hasNonSpace path = true ∧ dir_exists fs path = true)
                 directories_
  ∧ length (filterInvalidDirectories fs directories_) ≤ length directories_.
Proof.
  rewrite filterInvalidDirectories_filter, length_fmap.
  split; [done|]. apply length_filter.
Qed.

(** *** The subscription after [updateWatchedPaths] *)

Lemma addPath_NoDup fs w path :
  NoDup (watched_directories w) → NoDup (watched_files w) →
  NoDup (watched_directories (QFSW.addPath fs w path))
  ∧ NoDup (watched_files (QFSW.addPath fs w path)).
Proof.
  intros Hd Hf. unfold QFSW.addPath.
  destruct (QString.isEmpty path); [done|].
  destruct (dir_exists fs path).
  - destruct (contains _ path) eqn:Hc; [done|]. apply contains_false in Hc.
    split; [|done]. cbn. apply NoDup_app. split; [done|].
    split; [|apply NoDup_singleton].
    by intros x ? ->%list_elem_of_singleton.
  - destruct (contains _ path) eqn:Hc; [done|]. apply contains_false in Hc.
    destruct (path_exists fs path); [|done].
    split; [done|]. cbn. apply NoDup_app. split; [done|].
    split; [|apply NoDup_singleton].
    by intros x ? ->%list_elem_of_singleton.
Qed.

Lemma addPaths_NoDup fs w paths :
  NoDup (watched_directories w) → NoDup (watched_files w) →
  NoDup (watched_directories (QFSW.addPaths fs w paths))
  ∧ NoDup (watched_files (QFSW.addPaths fs w paths)).
Proof.
  unfold QFSW.addPaths. revert w; induction paths as [|p l IH]; intros w Hd Hf;
    [done|].
  cbn [foldl]. destruct (addPath_NoDup fs w p Hd Hf) as [Hd' Hf'].
  by apply IH.
Qed.

Lemma updateWatchedPaths_eq fs (d : Watcher) directories_ files_ :
  updateWatchedPaths fs d directories_ files_ =
  {| ModuleManager := ModuleManager d;
     FileSystemWatcher :=
       QFSW.addPaths fs (QFSW.addPaths fs QFSW.empty directories_) files_;
     MapFileNameToReference := MapFileNameToReference d;
     Debug := Debug d;
     ManagerCalls := ManagerCalls d |}.
Proof.
  pose proof (updateWatchedPaths_FileSystemWatcher fs d directories_ files_) as H.
  unfold updateWatchedPaths in *. cbn [FileSystemWatcher] in H. by rewrite H.
Qed.

(** X2: [updateWatchedPaths] replaces the whole subscription: the watcher
    it leaves does not depend on what was subscribed before; it watches as
    directories exactly the non-empty paths of either list that are existing
    directories, and as files exactly the non-empty paths of either list that
    exist and are no directories (whichever list a path came in); neither
    list has a path twice; doing it again changes nothing; and the manager,
    the hash and the debug flag are left alone. *)
Theorem updateWatchedPaths_replaces_subscription
    fs (d other : Watcher) directories_ files_ :
  let d' := updateWatchedPaths fs d directories_ files_ in
  FileSystemWatcher d'
    = FileSystemWatcher (updateWatchedPaths fs other directories_ files_)
  ∧ (∀ p, p ∈ directories d' ↔
          (p ∈ directories_ ∨ p ∈ files_)
          ∧ QString.isEmpty p = false ∧ dir_exists fs p = true)
  ∧ (∀ p, p ∈ files d' ↔
          (p ∈ directories_ ∨ p ∈ files_)
          ∧ QString.isEmpty p = false ∧ dir_exists fs p = false
          ∧ path_exists fs p = true)
  ∧ NoDup (directories d') ∧ NoDup (files d')
  ∧ updateWatchedPaths fs d' directories_ files_ = d'
  ∧ ModuleManager d' = ModuleManager d
  ∧ MapFileNameToReference d' = MapFileNameToReference d
  ∧ Debug d' = Debug d
  ∧ ManagerCalls d' = ManagerCalls d.
Proof.
  intros d'. subst d'. rewrite !updateWatchedPaths_eq.
  unfold directories, files.
  cbn [FileSystemWatcher ModuleManager MapFileNameToReference Debug ManagerCalls].
  split; [done|]. split; [|split].
  - intros p. rewrite !elem_of_addPaths_directories.
    cbn [QFSW.empty watched_directories]. rewrite elem_of_nil. naive_solver.
  - intros p. rewrite !elem_of_addPaths_files.
    cbn [QFSW.empty watched_files]. rewrite elem_of_nil. naive_solver.
  - assert (NoDup (watched_directories
                     (QFSW.addPaths fs (QFSW.addPaths fs QFSW.empty directories_)
                        files_))
            ∧ NoDup (watched_files
                       (QFSW.addPaths fs (QFSW.addPaths fs QFSW.empty directories_)
                          files_))) as [Hd Hf].
    { destruct (addPaths_NoDup fs QFSW.empty directories_) as [H1 H2];
        [apply NoDup_nil_2..|].
      by apply addPaths_NoDup. }
    done.
Qed.

(** *** Valid references only *)

Lemma loadModules_storesValidReferences (d : Watcher) executables :
  storesValidReferences d →
  storesValidReferences (loadModules manager d executables).1.
Proof.
  intros Hd fileName ref. rewrite loadModules_map.
  intros [H|[_ H]]%foldl_storeReference_Some; [by eapply Hd|done].
Qed.

Lemma unloadModules_storesValidReferences (d : Watcher) executables :
  storesValidReferences d →
  storesValidReferences (unloadModules manager d executables).
Proof.
  intros Hd fileName ref. rewrite unloadModules_map, lookup_foldl_delete.
  case_decide; [done|]. apply Hd.
Qed.

Lemma setModuleReferences_storesValidReferences fs (d : Watcher) directories_ :
  storesValidReferences d →
  storesValidReferences (setModuleReferences manager fs d directories_).
Proof.
  intros Hd. unfold setModuleReferences. cbn zeta.
  by apply loadModules_storesValidReferences,
    unloadModules_storesValidReferences.
Qed.

(** X3: no method ever puts an invalid reference in
    [MapFileNameToReference]: if every stored reference is valid, it is so
    after a load or an unload batch, after [setModuleReferences] and
    [setDirectories], and after the answer to either notification. *)
Theorem storesValidReferences_kept fs (d : Watcher) :
  storesValidReferences d →
  (∀ executables,
     storesValidReferences (loadModules manager d executables).1)
  ∧ (∀ executables,
       storesValidReferences (unloadModules manager d executables))
  ∧ (∀ directories_,
       storesValidReferences (setModuleReferences manager fs d directories_))
  ∧ (∀ directories_,
       storesValidReferences (setDirectories manager fs d directories_))
  ∧ (∀ path, storesValidReferences (onDirectoryChanged manager fs d path))
  ∧ (∀ path d', onFileChanged manager d path = Some d' →
                storesValidReferences d').
Proof.
  intros Hd. split; [|split; [|split; [|split; [|split]]]].
  - intros l. by apply loadModules_storesValidReferences.
  - intros l. by apply unloadModules_storesValidReferences.
  - intros l. by apply setModuleReferences_storesValidReferences.
  - intros l fileName ref. rewrite setDirectories_MapFileNameToReference.
    by apply setModuleReferences_storesValidReferences.
  - intros path. unfold onDirectoryChanged. case_bool_decide; [|done].
    by apply setModuleReferences_storesValidReferences.
  - intros path d'. unfold onFileChanged.
    pose proof (loadModules_storesValidReferences d [path] Hd) as Hl.
    destruct (loadModules manager d [path]) as [d1 refs].
    destruct (front refs); [|done]. by intros [= <-].
Qed.

(** *** The order of the manager calls *)

(** X4: a reconciliation pass ends its unload batch before its load batch
    begins: in the trace of the calls of [registerModule] and
    [unregisterModule], every call of [unregisterModule] of the pass, each
    for a path of the unload list and with a valid reference, comes before
    every call of [registerModule], and [registerModule] is called once for
    each entry of the load list, in some order. *)
Theorem setModuleReferences_unloads_before_loading fs (d : Watcher) directories_ :
  ∃ unregistered registered,
    ManagerCalls (setModuleReferences manager fs d directories_) =
      ManagerCalls d ++ unregistered ++ registered
    ∧ (∀ c, c ∈ unregistered →
         ∃ path ref, c = CallUnregister path ref
                     ∧ path ∈ modulesToUnload fs d directories_
                     ∧ isValid ref = true)
    ∧ registered ≡ₚ CallRegister <$> modulesToLoad fs d directories_.
Proof.
  unfold setModuleReferences. cbn zeta. rewrite loadModules_calls.
  destruct (unloadModules_calls manager d (modulesToUnload fs d directories_))
    as (new & -> & Hnew).
  exists new, (CallRegister <$> modulesToLoad fs d directories_).
  by rewrite <- app_assoc.
Qed.

(** *** What a reconciliation pass leaves tracked *)

Lemma setModuleReferences_map fs (d : Watcher) directories_ :
  MapFileNameToReference (setModuleReferences manager fs d directories_) =
  foldl storeReference
    (foldl (λ map executable, delete executable map)
           (MapFileNameToReference d) (modulesToUnload fs d directories_))
    (zip (modulesToLoad fs d directories_)
         (loadModules manager
            (unloadModules manager d (modulesToUnload fs d directories_))
            (modulesToLoad fs d directories_)).2).
Proof.
  unfold setModuleReferences. cbn zeta.
  by rewrite loadModules_map, unloadModules_map.
Qed.

Lemma setModuleReferences_tracked fs (d : Watcher) directories_ k :
  is_Some (MapFileNameToReference
             (setModuleReferences manager fs d directories_) !! k) →
  k ∈ modulesToLoad fs d directories_
  ∨ (is_Some (MapFileNameToReference d !! k)
     ∧ k ∉ modulesToUnload fs d directories_).
Proof.
  rewrite setModuleReferences_map.
  intros [r [H|[H _]]%foldl_storeReference_Some].
  - right. rewrite lookup_foldl_delete in H. case_decide; [done|]. eauto.
  - left. apply elem_of_zip_lookup in H as (i & Hi & _).
    by eapply list_elem_of_lookup_2.
Qed.

Lemma setModuleReferences_kept fs (d : Watcher) directories_ k :
  is_Some (MapFileNameToReference d !! k) →
  k ∉ modulesToUnload fs d directories_ →
  is_Some (MapFileNameToReference
             (setModuleReferences manager fs d directories_) !! k).
Proof.
  intros Hk Hn. rewrite setModuleReferences_map.
  apply foldl_storeReference_is_Some.
  by rewrite lookup_foldl_delete, decide_False.
Qed.

Lemma watcher_eta (d : Watcher) :
  {| ModuleManager := ModuleManager d;
     FileSystemWatcher := FileSystemWatcher d;
     MapFileNameToReference := MapFileNameToReference d;
     Debug := Debug d;
     ManagerCalls := ManagerCalls d |} = d.
Proof. by destruct d. Qed.

(** X5: a directory-changed notification for a watched directory changes
    nothing at all (no manager call, the same hash, the same subscription)
    when the tracked files of every watched directory are the executables
    that directory holds. *)
Theorem onDirectoryChanged_in_step fs (d : Watcher) path :
  path ∈ directories d →
  (∀ B f, B ∈ directories d →
          f ∈ extractCurrentlyWatchedFilenamesInDirectory fs d B
          ↔ f ∈ getExecutablesInDirectory fs B) →
  onDirectoryChanged manager fs d path = d.
Proof.
  intros Hw Hsync. unfold onDirectoryChanged. case_bool_decide; [|done].
  rewrite updateModuleReferences_watched by done.
  rewrite setModuleReferences_nothing_to_do; [apply watcher_eta|..].
  - apply list_empty_elem_of.
    intros f [(p & ? & ? & _)|(p & _ & Hp & Ht & Hn)]%elem_of_modulesToUnload;
      [done|].
    destruct Hn. by apply Hsync.
  - apply list_empty_elem_of.
    intros f (p & Hp & He & Hn)%elem_of_modulesToLoad.
    apply (Hn Hp). by apply Hsync.
Qed.

(** X6: the files of directories that are gone from the disk are never
    unloaded.  When none of the watched directories exists any more, the
    notification for any of them is ignored (the state stays as it is), and
    a call of [setDirectories], whatever its list, unloads nothing and keeps
    every tracked file tracked. *)
Theorem modules_of_vanished_directories_stay fs (d : Watcher) :
  (∀ path, path ∈ directories d → dir_exists fs path = false) →
  (∀ path, path ∈ directories d → onDirectoryChanged manager fs d path = d)
  ∧ (∀ requested,
       modulesToUnload fs d (filterInvalidDirectories fs requested) = []
       ∧ ∀ k, is_Some (MapFileNameToReference d !! k) →
              is_Some (MapFileNameToReference
                         (setDirectories manager fs d requested) !! k)).
Proof.
  intros Hgone. split.
  - intros path Hp. unfold onDirectoryChanged.
    rewrite filterInvalidDirectories_filter.
    rewrite filter_cons_False, filter_nil; [done|].
    intros [_ ?]. rewrite (Hgone path Hp) in *. done.
  - intros requested.
    assert (modulesToUnload fs d (filterInvalidDirectories fs requested) = [])
      as HU.
    { apply list_empty_elem_of.
      intros x [(p & Hp & _ & Ht)|(p & _ & Hp & Ht & _)]%elem_of_modulesToUnload;
        apply elem_of_extractCurrentlyWatchedFilenamesInDirectory in Ht as [Hex _];
        rewrite (Hgone p Hp) in Hex; done. }
    split; [done|]. intros k Hk.
    rewrite setDirectories_MapFileNameToReference.
    apply setModuleReferences_kept; [done|]. rewrite HU. apply not_elem_of_nil.
Qed.

(** X7: a call of [setDirectories] whose list has no valid directory (the
    empty list, or blank and missing paths only) unloads every tracked file
    and leaves the watcher with nothing tracked and nothing subscribed, when
    the tracked files lay inside the watched directories; it never calls
    [registerModule]. *)
Theorem setDirectories_nothing_valid fs (d : Watcher) requested :
  tracksInsideWatched fs d →
  filterInvalidDirectories fs requested = [] →
  let d' := setDirectories manager fs d requested in
  MapFileNameToReference d' = ∅
  ∧ directories d' = [] ∧ files d' = []
  ∧ ∃ unregistered,
      ManagerCalls d' = ManagerCalls d ++ unregistered
      ∧ ∀ c, c ∈ unregistered →
          ∃ path ref, c = CallUnregister path ref
                      ∧ is_Some (MapFileNameToReference d !! path).
Proof.
  intros [Hdirs Hkeys] Hvalid d'.
  assert (modulesToLoad fs d [] = []) as HL by done.
  assert (∀ x, x ∈ modulesToUnload fs d [] ↔
               is_Some (MapFileNameToReference d !! x)) as HU.
  { intros x. rewrite elem_of_modulesToUnload. split.
    - intros [(p & Hp & _ & Ht)|(p & []%elem_of_nil & _)].
      apply elem_of_extractCurrentlyWatchedFilenamesInDirectory in Ht
        as (_ & k & Hk & _ & ->).
      destruct (Hkeys k Hk) as (-> & _). done.
    - intros Hx. destruct (Hkeys x Hx) as (Habs & _ & p & Hp & Hpar).
      left. exists p. split; [done|]. split; [apply not_elem_of_nil|].
      apply elem_of_extractCurrentlyWatchedFilenamesInDirectory.
      split; [by apply Hdirs|]. exists x. by rewrite Habs. }
  assert (MapFileNameToReference (setModuleReferences manager fs d []) = ∅)
    as Hmap.
  { rewrite setModuleReferences_map, HL. cbn [zip_with foldl].
    apply map_eq. intros k. rewrite lookup_foldl_delete, lookup_empty.
    case_decide as Hk; [done|]. rewrite HU in Hk.
    by apply eq_None_not_Some. }
  assert (FileSystemWatcher d' = QFSW.empty) as Hw.
  { subst d'. unfold setDirectories. cbn zeta.
    rewrite updateWatchedPaths_FileSystemWatcher, Hvalid.
    unfold keys. by rewrite Hmap, map_to_list_empty. }
  split; [by subst d'; rewrite setDirectories_MapFileNameToReference, Hvalid|].
  unfold directories, files. rewrite Hw.
  split; [done|]. split; [done|].
  subst d'. rewrite setDirectories_ManagerCalls, Hvalid.
  unfold setModuleReferences. cbn zeta. rewrite HL, loadModules_nil.
  cbn [fst ManagerCalls].
  destruct (unloadModules_calls manager d (modulesToUnload fs d []))
    as (new & -> & Hnew).
  exists new. split; [done|]. intros c Hc.
  destruct (Hnew c Hc) as (path & ref & -> & Hp%HU & _). eauto.
Qed.

(** *** Tracked files stay inside the watched directories *)

Lemma setDirectories_tracksInsideWatched fs (d : Watcher) requested :
  tracksInsideWatched fs d →
  absoluteDirectories fs (filterInvalidDirectories fs requested) →
  scansConsistently fs (filterInvalidDirectories fs requested) →
  tracksInsideWatched fs (setDirectories manager fs d requested).
Proof.
  intros [Hdirs Hkeys] Hvalid Hscan.
  assert (∀ p, p ∈ directories (setDirectories manager fs d requested)
               ↔ p ∈ filterInvalidDirectories fs requested) as Hd1.
  { by apply first_call_directories. }
  split.
  - intros p Hp%Hd1. destruct (Hvalid p Hp) as (_ & ? & ?). done.
  - intros k [(p & Hp & Hx & _)%elem_of_modulesToLoad|[Hk Hn]]%first_call_tracked.
    + destruct (Hscan p k Hp Hx) as (? & ? & ?).
      split; [done|]. split; [done|]. exists p. by rewrite Hd1.
    + destruct (Hkeys k Hk) as (Habs & Hnd & p0 & Hp0 & Hpar).
      split; [done|]. split; [done|]. exists p0. split; [|done]. apply Hd1.
      destruct (decide (p0 ∈ filterInvalidDirectories fs requested)) as [|Hnv];
        [done|].
      destruct Hn. apply elem_of_modulesToUnload. left. exists p0.
      split; [done|]. split; [done|].
      apply elem_of_extractCurrentlyWatchedFilenamesInDirectory.
      split; [by apply Hdirs|]. exists k. by rewrite Habs.
Qed.

(** X8: [setDirectories] keeps the tracked files inside the watched
    directories: if, on the current disk, the watched directories exist and
    every tracked file lies in one of them, the same holds after the call
    (whatever registrations failed), on a disk where the validated
    directories are absolute paths and list executables of their own. *)
Theorem setDirectories_keeps_tracked_inside_watched fs (d : Watcher) requested :
  tracksInsideWatched fs d →
  absoluteDirectories fs (filterInvalidDirectories fs requested) →
  scansConsistently fs (filterInvalidDirectories fs requested) →
  tracksInsideWatched fs (setDirectories manager fs d requested).
Proof. apply setDirectories_tracksInsideWatched. Qed.

(** X9: after [setDirectories], when every registration it asked for gave
    a module: [directories()] holds exactly the validated directories, the
    tracked files are exactly the executables found in them, and [files()]
    holds exactly the tracked files that exist on disk. *)
Theorem setDirectories_complete fs (d : Watcher) requested :
  let valid := filterInvalidDirectories fs requested in
  let d' := setDirectories manager fs d requested in
  tracksInsideWatched fs d →
  absoluteDirectories fs valid →
  scansConsistently fs valid →
  (∀ ref,
     ref ∈ (loadModules manager
              (unloadModules manager d (modulesToUnload fs d valid))
              (modulesToLoad fs d valid)).2 →
     isValid ref = true) →
  (∀ p, p ∈ directories d' ↔ p ∈ valid)
  ∧ (∀ k, is_Some (MapFileNameToReference d' !! k) ↔
          ∃ p, p ∈ valid ∧ k ∈ getExecutablesInDirectory fs p)
  ∧ (∀ x, x ∈ files d' ↔
          is_Some (MapFileNameToReference d' !! x)
          ∧ QString.isEmpty x = false ∧ path_exists fs x = true).
Proof.
  intros valid d' Hinv Hvalid Hscan Hok.
  pose proof (setDirectories_tracksInsideWatched fs d requested Hinv Hvalid Hscan)
    as [Hdirs' Hkeys'].
  destruct Hinv as [Hdirs Hkeys].
  assert (∀ p, p ∈ directories d → dir_absolutePath fs p = p) as Habs
    by (intros p Hp; by apply Hdirs).
  assert (∀ p, p ∈ directories d' ↔ p ∈ valid) as Hd1
    by (by apply first_call_directories).
  split; [done|]. split.
  - intros k. split.
    + intros Hk. destruct (Hkeys' k Hk) as (_ & _ & p & Hp%Hd1 & Hpar).
      exists p. split; [done|].
      by apply (first_call_tracks_only_executables manager fs d requested
                  Habs Hkeys Hvalid Hscan p k).
    + intros (p & Hp & Hx).
      by apply (first_call_tracks_executables manager fs d requested
                  Habs Hkeys Hvalid Hscan Hok p k).
  - intros x. subst d'. rewrite elem_of_files_setDirectories. cbn zeta.
    rewrite <- setDirectories_MapFileNameToReference. split.
    + intros ([Hx|Hx] & ? & Hnd & ?).
      * destruct (Hvalid x Hx) as (_ & ? & _). congruence.
      * done.
    + intros (Hx & ? & ?). destruct (Hkeys' x Hx) as (_ & ? & _). eauto.
Qed.

(** X10: the answer to a directory-changed notification for a watched
    directory keeps the tracked files inside the watched directories, on a
    disk where the watched directories list executables of their own. *)
Theorem onDirectoryChanged_keeps_tracked_inside_watched fs (d : Watcher) path :
  tracksInsideWatched fs d →
  scansConsistently fs (directories d) →
  path ∈ directories d →
  tracksInsideWatched fs (onDirectoryChanged manager fs d path).
Proof.
  intros [Hdirs Hkeys] Hscan Hw. unfold onDirectoryChanged.
  case_bool_decide; [|done].
  rewrite updateModuleReferences_watched by done.
  assert (directories (setModuleReferences manager fs d (directories d))
          = directories d) as Hsame.
  { unfold directories. by rewrite setModuleReferences_FileSystemWatcher. }
  split; [by rewrite Hsame|]. rewrite Hsame.
  intros k [(p & Hp & Hx & _)%elem_of_modulesToLoad|[Hk _]]%setModuleReferences_tracked.
  - destruct (Hscan p k Hp Hx) as (? & ? & ?). eauto.
  - by apply Hkeys.
Qed.

(** *** Batches with a path more than once, and batches undone *)

(** X11: when a load batch has a path more than once, the entry it leaves
    is the last valid reference obtained for that path. *)
Theorem loadModules_last_valid_reference_wins
    (d : Watcher) executables i fileName ref :
  let refs := (loadModules manager d executables).2 in
  executables !! i = Some fileName →
  refs !! i = Some ref →
  isValid ref = true →
  (∀ j r, i < j → executables !! j = Some fileName → refs !! j = Some r →
          isValid r = false) →
  MapFileNameToReference (loadModules manager d executables).1 !! fileName
  = Some ref.
Proof.
  intros refs Hi Hr Hv Hlater. rewrite loadModules_map. fold refs.
  assert (zip executables refs !! i = Some (fileName, ref)) as Hz.
  { rewrite lookup_zip_with, Hi. cbn. by rewrite Hr. }
  rewrite <- (take_drop_middle _ _ _ Hz), foldl_app. cbn [foldl].
  rewrite foldl_storeReference_invalid.
  - rewrite storeReference_lookup. cbn [fst snd]. by rewrite decide_True.
  - intros r (j & Hj)%list_elem_of_lookup. rewrite lookup_drop in Hj.
    rewrite lookup_zip_with in Hj.
    destruct (executables !! (S i + j)) as [e|] eqn:He; [|done].
    destruct (refs !! (S i + j)) as [r'|] eqn:Hr'; [|done].
    cbn in Hj. simplify_eq. apply (Hlater (S i + j)); [lia|done..].
Qed.

(** X12: unloading a batch right after loading it leaves the hash as
    unloading alone would; when none of its paths was tracked before, the
    hash is again what it was before the load. *)
Theorem unloadModules_undoes_loadModules (d : Watcher) executables :
  MapFileNameToReference
    (unloadModules manager (loadModules manager d executables).1 executables)
  = MapFileNameToReference (unloadModules manager d executables)
  ∧ ((∀ path, path ∈ executables → MapFileNameToReference d !! path = None) →
     MapFileNameToReference
       (unloadModules manager (loadModules manager d executables).1 executables)
     = MapFileNameToReference d).
Proof.
  assert (∀ path,
            MapFileNameToReference
              (unloadModules manager (loadModules manager d executables).1
                 executables) !! path
            = if decide (path ∈ executables) then None
              else MapFileNameToReference d !! path) as Hlookup.
  { intros path. rewrite unloadModules_map, lookup_foldl_delete.
    case_decide as Hin; [done|]. rewrite loadModules_map.
    apply foldl_storeReference_invalid.
    intros r (j & Hj & _)%elem_of_zip_lookup. destruct Hin.
    by eapply list_elem_of_lookup_2. }
  split.
  - apply map_eq. intros path.
    by rewrite Hlookup, unloadModules_map, lookup_foldl_delete.
  - intros Hnew. apply map_eq. intros path. rewrite Hlookup.
    case_decide; [|done]. symmetry. by apply Hnew.
Qed.

(** *** Never both unloaded and loaded *)

(** X13: in one reconciliation pass no file is in both the unload list and
    the load list, when the tracked files lie inside the watched directories
    and the requested directories are absolute paths listing executables of
    their own. *)
Theorem modulesToUnload_modulesToLoad_disjoint fs (d : Watcher) directories_ x :
  tracksInsideWatched fs d →
  absoluteDirectories fs directories_ →
  scansConsistently fs directories_ →
  x ∈ modulesToUnload fs d directories_ →
  x ∉ modulesToLoad fs d directories_.
Proof.
  intros [Hdirs Hkeys] Hvalid Hscan HU (p' & Hp' & Hx' & Hn')%elem_of_modulesToLoad.
  destruct (Hscan p' x Hp' Hx') as (Hpar' & _ & _).
  destruct (Hvalid p' Hp') as (_ & _ & Habs').
  assert (∀ p, p ∈ directories d →
               x ∈ extractCurrentlyWatchedFilenamesInDirectory fs d p → p = p')
    as Hsame.
  { intros p Hp Ht.
    apply elem_of_extractCurrentlyWatchedFilenamesInDirectory in Ht
      as (_ & k & Hk & Hpar & ->).
    destruct (Hkeys k Hk) as (Hkabs & _). rewrite Hkabs in *.
    destruct (Hdirs p Hp) as [_ Hpabs]. congruence. }
  apply elem_of_modulesToUnload in HU
    as [(p & Hp & Hn & Ht)|(p & _ & Hp & Ht & Hn)].
  - rewrite (Hsame p Hp Ht) in Hn. done.
  - rewrite (Hsame p Hp Ht) in Hn. done.
Qed.

(** *** The notifications and the subscription *)

(** X14: answering a notification never changes the subscription: after
    [onDirectoryChanged] and after [onFileChanged], [directories()] and
    [files()] are what they were, whatever was loaded or unloaded. *)
Theorem notifications_keep_subscription fs (d : Watcher) path :
  directories (onDirectoryChanged manager fs d path) = directories d
  ∧ files (onDirectoryChanged manager fs d path) = files d
  ∧ ∀ d', onFileChanged manager d path = Some d' →
          directories d' = directories d ∧ files d' = files d.
Proof.
  unfold directories, files.
  rewrite onDirectoryChanged_FileSystemWatcher. split; [done|]. split; [done|].
  intros d' H. by rewrite (onFileChanged_FileSystemWatcher manager d d' path H).
Qed.

(** X15: a file-changed notification for a file that is tracked leaves the
    set of tracked files as it was, whether the registration succeeds or
    not, and so keeps the tracked files inside the watched directories. *)
Theorem onFileChanged_tracked_file fs (d d' : Watcher) path :
  is_Some (MapFileNameToReference d !! path) →
  onFileChanged manager d path = Some d' →
  (∀ k, is_Some (MapFileNameToReference d' !! k)
        ↔ is_Some (MapFileNameToReference d !! k))
  ∧ (tracksInsideWatched fs d → tracksInsideWatched fs d').
Proof.
  intros Hp. unfold onFileChanged. rewrite loadModules_singleton.
  cbn [front head]. intros [= <-].
  cbn [MapFileNameToReference].
  assert (∀ k, is_Some (storeReference (MapFileNameToReference d)
                          (path, caught (registerModule manager
                                           (ModuleManager d) path).2) !! k)
               ↔ is_Some (MapFileNameToReference d !! k)) as Hsame.
  { intros k. rewrite storeReference_lookup. cbn [fst snd].
    case_decide as Hk; [|done]. destruct Hk as [<- _].
    split; [done|]. by eexists. }
  split; [done|]. intros [Hdirs Hkeys]. split; [done|].
  intros k Hk%Hsame. by apply Hkeys.
Qed.

End WatcherProperties.

(** *** The properties on the scenarios *)

(** The scenario states keep their tracked files inside the watched
    directories, and the disks list executables of their own. *)
Lemma watching_A_B_empty_inside :
  tracksInsideWatched disk_A_x_B_z watching_A_B_empty.
Proof.
  split.
  - intros p Hp. change (directories watching_A_B_empty) with ["/A"; "/B"] in Hp.
    list_cases Hp; done.
  - intros k Hk%elem_of_keys.
    change (keys watching_A_B_empty) with ["/A/y"; "/A/x"] in Hk.
    list_cases Hk; (split; [done|]; split; [done|]; exists "/A";
      split; [apply (bool_decide_unpack _); by vm_compute|done]).
Qed.

Lemma disk_A_x_B_z_absolute :
  absoluteDirectories disk_A_x_B_z ["/B"; "/A"].
Proof. intros p Hp. list_cases Hp; done. Qed.

Lemma disk_A_x_B_z_scans :
  scansConsistently disk_A_x_B_z ["/B"; "/A"].
Proof.
  intros p x Hp Hx. list_cases Hp.
  - change (getExecutablesInDirectory disk_A_x_B_z "/B") with ["/B/z"] in Hx.
    list_cases Hx; done.
  - change (getExecutablesInDirectory disk_A_x_B_z "/A") with ["/A/x"] in Hx.
    list_cases Hx; done.
Qed.

(** X1 on an existing directory whose name is a no-break space and a
    tab: [trimmed] leaves nothing of it and the path is dropped, while a name
    with a letter between such characters is kept. *)
Lemma filterInvalidDirectories_drops_no_break_space :
  let nbsp := String (ascii_of_nat 160) (String (ascii_of_nat 9) EmptyString) in
  let named := String (ascii_of_nat 160) (String "d" (String (ascii_of_nat 133) EmptyString)) in
  let disk := fileSystem [(nbsp, []); (named, [])] in
  dir_exists disk nbsp = true
  ∧ QString.trimmed named = "d"
  ∧ filterInvalidDirectories disk [nbsp; named; ""] = [named].
Proof. cbn zeta. repeat split; vm_compute; reflexivity. Qed.

(** X3 from the freshly constructed watcher, with a manager for which one
    file does not register. *)
Lemma storesValidReferences_kept_example :
  storesValidReferences (setDirectories rejects_y disk_A_xy fresh ["/A"])
  ∧ storesValidReferences
      (onDirectoryChanged rejects_y disk_A_xy fresh "/A").
Proof.
  assert (storesValidReferences fresh) as Hfresh.
  { intros k r H. by vm_compute in H. }
  destruct (storesValidReferences_kept rejects_y disk_A_xy fresh Hfresh)
    as (_ & _ & _ & Hset & Hdir & _).
  split; [apply Hset|apply Hdir].
Defined.

(** X5 on the full disk, with both directories watched and in step. *)
Lemma onDirectoryChanged_in_step_example :
  onDirectoryChanged registers disk_A_xy_B_z watching_A_B "/A" = watching_A_B.
Proof.
  apply onDirectoryChanged_in_step.
  - apply (bool_decide_unpack _). by vm_compute.
  - intros B f HB. change (directories watching_A_B) with ["/A"; "/B"] in HB.
    list_cases HB.
    + change (extractCurrentlyWatchedFilenamesInDirectory disk_A_xy_B_z watching_A_B "/A")
        with ["/A/y"; "/A/x"].
      change (getExecutablesInDirectory disk_A_xy_B_z "/A") with ["/A/x"; "/A/y"].
      rewrite !elem_of_cons, elem_of_nil. naive_solver.
    + change (extractCurrentlyWatchedFilenamesInDirectory disk_A_xy_B_z watching_A_B "/B")
        with ["/B/z"].
      by change (getExecutablesInDirectory disk_A_xy_B_z "/B") with ["/B/z"].
Defined.

(** X6 after every directory was deleted. *)
Lemma modules_of_vanished_directories_stay_example :
  onDirectoryChanged registers disk_empty watching_A_B "/A" = watching_A_B
  ∧ modulesToUnload disk_empty watching_A_B
      (filterInvalidDirectories disk_empty []) = []
  ∧ keys (setDirectories registers disk_empty watching_A_B [])
    = keys watching_A_B
  ∧ directories (setDirectories registers disk_empty watching_A_B []) = [].
Proof.
  assert (∀ path, path ∈ directories watching_A_B →
                  dir_exists disk_empty path = false) as Hgone by done.
  destruct (modules_of_vanished_directories_stay registers disk_empty
              watching_A_B Hgone) as [Hnote Hset].
  split; [apply Hnote; apply (bool_decide_unpack _); by vm_compute|].
  split; [apply (Hset [])|]. split; by vm_compute.
Defined.

(** X7 for a list of an empty path, a blank path and a missing directory. *)
Lemma setDirectories_nothing_valid_example :
  let d' := setDirectories registers disk_A_x_B_z watching_A_B_empty
              [""; "  "; "/C"] in
  MapFileNameToReference d' = ∅
  ∧ directories d' = [] ∧ files d' = []
  ∧ ManagerCalls d' =
      ManagerCalls watching_A_B_empty
      ++ [CallUnregister "/A/y" (Reference 2); CallUnregister "/A/x" (Reference 1)].
Proof.
  destruct (setDirectories_nothing_valid registers disk_A_x_B_z
              watching_A_B_empty [""; "  "; "/C"] watching_A_B_empty_inside)
    as (Hmap & Hd & Hf & _); [done|].
  cbn zeta. split; [exact Hmap|]. split; [exact Hd|]. split; [exact Hf|].
  by vm_compute.
Defined.

(** X8 where [/B/z] does not register. *)
Lemma setDirectories_keeps_tracked_inside_watched_example :
  tracksInsideWatched disk_A_x_B_z
    (setDirectories rejects_z disk_A_x_B_z watching_A_B_empty
       ["/B"; "  "; "/C"; "/A"]).
Proof.
  apply setDirectories_keeps_tracked_inside_watched.
  - apply watching_A_B_empty_inside.
  - apply disk_A_x_B_z_absolute.
  - apply disk_A_x_B_z_scans.
Defined.

(** X9 where [/A] has lost [y] and [/B] has gained [z]. *)
Lemma setDirectories_complete_example :
  let d' := setDirectories registers disk_A_x_B_z watching_A_B_empty
              ["/B"; "  "; "/C"; "/A"] in
  (∀ p, p ∈ directories d' ↔ p ∈ ["/B"; "/A"])
  ∧ (∀ k, is_Some (MapFileNameToReference d' !! k) ↔
          ∃ p, p ∈ ["/B"; "/A"] ∧ k ∈ getExecutablesInDirectory disk_A_x_B_z p)
  ∧ (∀ x, x ∈ files d' ↔
          is_Some (MapFileNameToReference d' !! x)
          ∧ QString.isEmpty x = false ∧ path_exists disk_A_x_B_z x = true).
Proof.
  apply (setDirectories_complete registers disk_A_x_B_z watching_A_B_empty
           ["/B"; "  "; "/C"; "/A"]).
  - apply watching_A_B_empty_inside.
  - apply disk_A_x_B_z_absolute.
  - apply disk_A_x_B_z_scans.
  - intros ref Href.
    match type of Href with _ ∈ ?l =>
      let l' := eval vm_compute in l in change l with l' in Href end.
    list_cases Href; done.
Defined.

(** X10 for the notification of [/A] after [y] was removed. *)
Lemma onDirectoryChanged_keeps_tracked_inside_watched_example :
  tracksInsideWatched disk_A_x_B_z
    (onDirectoryChanged registers disk_A_x_B_z watching_A_B_empty "/A").
Proof.
  apply onDirectoryChanged_keeps_tracked_inside_watched.
  - apply watching_A_B_empty_inside.
  - intros p x Hp. change (directories watching_A_B_empty) with ["/A"; "/B"] in Hp.
    apply disk_A_x_B_z_scans. list_cases Hp; rewrite !elem_of_cons; auto.
  - apply (bool_decide_unpack _). by vm_compute.
Defined.

(** X11 with a manager that registers a location once: the second attempt
    for [/A/x] fails and the first reference stays. *)
Lemma loadModules_last_valid_reference_wins_example :
  (loadModules registers_once fresh ["/A/x"; "/A/y"; "/A/x"]).2
    = [Reference 1; Reference 2; NullReference]
  ∧ MapFileNameToReference
      (loadModules registers_once fresh ["/A/x"; "/A/y"; "/A/x"]).1 !! "/A/x"
    = Some (Reference 1).
Proof.
  split; [by vm_compute|].
  apply (loadModules_last_valid_reference_wins registers_once fresh
           ["/A/x"; "/A/y"; "/A/x"] 0 "/A/x" (Reference 1)); try done.
  intros j r Hj Hx Hr. destruct j as [|[|[|j]]]; try done; try lia.
  by injection Hr as <-.
Defined.

(** X13 where [y] is to be unloaded and [z] to be loaded. *)
Lemma modulesToUnload_modulesToLoad_disjoint_example :
  modulesToUnload disk_A_x_B_z watching_A_B_empty ["/B"; "/A"] = ["/A/y"]
  ∧ modulesToLoad disk_A_x_B_z watching_A_B_empty ["/B"; "/A"] = ["/B/z"]
  ∧ "/A/y" ∉ modulesToLoad disk_A_x_B_z watching_A_B_empty ["/B"; "/A"].
Proof.
  split; [by vm_compute|]. split; [by vm_compute|].
  apply modulesToUnload_modulesToLoad_disjoint.
  - apply watching_A_B_empty_inside.
  - apply disk_A_x_B_z_absolute.
  - apply disk_A_x_B_z_scans.
  - apply (bool_decide_unpack _). by vm_compute.
Defined.

(** X15 for [/A/x], tracked, when the file no longer registers. *)
Lemma onFileChanged_tracked_file_example :
  ∃ d', onFileChanged rejects watching_A "/A/x" = Some d'
    ∧ keys d' = keys watching_A
    ∧ ∀ k, is_Some (MapFileNameToReference d' !! k)
           ↔ is_Some (MapFileNameToReference watching_A !! k).
Proof.
  eexists. split; [reflexivity|]. split; [by vm_compute|].
  apply (onFileChanged_tracked_file rejects disk_A_x watching_A _ "/A/x").
  - exists (Reference 1). by vm_compute.
  - reflexivity.
Defined.
